(** * The Qubit SDK facade for React Native ([src/index.ts])

    A shallow embedding of the [QubitSDK] class: its two configuration
    fields, its eight forwarding methods, and as much of the JavaScript
    runtime as those methods rely on (object identity, exceptions, promises
    with their reaction jobs, and the calls crossing the bridge into
    [NativeModules.QubitSDK]). *)

From Stdlib Require Import String List Arith Lia PrimFloat.
From stdpp Require Import base option list strings gmap pretty.

Set Warnings "-register-all".

Local Open Scope string_scope.
Local Open Scope list_scope.

(** ** Values *)

(** JavaScript values as far as the facade meets them. Numbers are IEEE 754
    doubles and are only ever passed along. [JShown e] is the arrow function
    [() => { NativeModules.QubitSDK.experienceShown(e) }] closed over [e];
    it is the only function value the facade creates. [JError] is an error
    object raised by the engine itself, such as a [TypeError]. Objects keep
    their own enumerable properties in property order. *)
Inductive JSValue : Type :=
| JUndefined
| JNull
| JBool (b : bool)
| JNum (n : float)
| JStr (s : string)
| JArr (elems : list JSValue)
| JObj (props : list (string * JSValue))
| JShown (e : JSValue)
| JError (name : string).

(** The string literal union ['SILENT'|'ERROR'|'WARN'|'INFO'|'DEBUG'|'VERBOSE']
    accepted by [withLogLevel]. *)
Inductive LogLevel : Type := SILENT | ERROR | WARN | INFO | DEBUG | VERBOSE.

Definition LogLevel_literal (l : LogLevel) : string :=
  match l with
  | SILENT => "SILENT"
  | ERROR => "ERROR"
  | WARN => "WARN"
  | INFO => "INFO"
  | DEBUG => "DEBUG"
  | VERBOSE => "VERBOSE"
  end.

(** The private fields of a [QubitSDK] instance; [None] is [null]. *)
Record QubitSDK : Type := mkQubitSDK {
  _trackingId : option string;
  _logLevel : string
}.

(** ** The native module *)

(** One constructor per method of [NativeModules.QubitSDK] that the facade
    invokes, carrying the arguments of the invocation. *)
Inductive NativeCall : Type :=
| Native_init (trackingId : option string) (logLevel : string)
| Native_sendEvent (eventType : string) (eventBody : JSValue)
| Native_enableTracker (value : bool)
| Native_getTrackingId
| Native_getDeviceId
| Native_getLookupData
| Native_getExperiences (experienceIds : list float) (isVariationSet : bool)
    (variation : float) (isPreviewSet preview : bool)
    (isIgnoreSegmentsSet ignoreSegments : bool)
| Native_experienceShown (e : JSValue).

(** The three states of a promise. *)
Inductive Settlement : Type :=
| Pending
| Fulfilled (value : JSValue)
| Rejected (reason : JSValue).

(** What an invocation of a native method does: it throws synchronously, or
    it returns. For a promise method, [Returns s] hands back a pending
    promise that the native side later settles as [s] ([Pending]: never);
    for a void method the facade drops the returned value. *)
Inductive NativeReply : Type :=
| Throws (e : JSValue)
| Returns (outcome : Settlement).

(** The two collaborators of the facade: the platform tag [Platform.OS] and
    the native module, whose reply may depend on the calls made so far. *)
Record Host : Type := mkHost {
  Platform_OS : string;
  NativeModules_QubitSDK : list NativeCall -> NativeCall -> NativeReply
}.

(** ** The heap of the runtime *)

Definition loc : Type := nat.

(** The functions the facade hands to [then] and [catch], by the promise [p]
    whose [resolve] and [reject] they close over. *)
Inductive Callback : Type :=
| Cb_resolve_decorated (p : loc)
| Cb_reject (p : loc).

(** A reaction registered by [then] or [catch] on a promise. *)
Record Reaction : Type := mkReaction {
  on_fulfilled : option Callback;
  on_rejected : option Callback;
  derived : loc
}.

Record PromiseCell : Type := mkPromiseCell {
  state : Settlement;
  reactions : list Reaction
}.

(** A promise reaction job: the handler picked for the settlement [job_arg]
    (none: the settlement passes through) and the promise it settles. *)
Record Job : Type := mkJob {
  job_handler : option Callback;
  job_arg : Settlement;
  job_derived : loc
}.

(** [calls] is the trace of invocations of the native module, oldest first.
    [replies] maps the position of a promise call in that trace to the
    promise the bridge handed out and the settlement it will deliver. *)
Record World : Type := mkWorld {
  objects : gmap loc QubitSDK;
  promises : gmap loc PromiseCell;
  replies : gmap nat (loc * Settlement);
  microtasks : list Job;
  calls : list NativeCall;
  next_loc : loc
}.

Definition set_objects (f : gmap loc QubitSDK -> gmap loc QubitSDK) (w : World) : World :=
  mkWorld (f (objects w)) (promises w) (replies w) (microtasks w) (calls w) (next_loc w).

Definition set_promises (f : gmap loc PromiseCell -> gmap loc PromiseCell) (w : World) : World :=
  mkWorld (objects w) (f (promises w)) (replies w) (microtasks w) (calls w) (next_loc w).

Definition set_replies (f : gmap nat (loc * Settlement) -> gmap nat (loc * Settlement))
    (w : World) : World :=
  mkWorld (objects w) (promises w) (f (replies w)) (microtasks w) (calls w) (next_loc w).

Definition set_microtasks (f : list Job -> list Job) (w : World) : World :=
  mkWorld (objects w) (promises w) (replies w) (f (microtasks w)) (calls w) (next_loc w).

Definition set_calls (f : list NativeCall -> list NativeCall) (w : World) : World :=
  mkWorld (objects w) (promises w) (replies w) (microtasks w) (f (calls w)) (next_loc w).

Definition set_next_loc (f : loc -> loc) (w : World) : World :=
  mkWorld (objects w) (promises w) (replies w) (microtasks w) (calls w) (f (next_loc w)).

Definition empty_world : World := mkWorld ∅ ∅ ∅ [] [] 0.

Definition promise_state (w : World) (p : loc) : option Settlement :=
  state <$> promises w !! p.

(** ** Computations: state and exceptions *)

Inductive Completion (A : Type) : Type :=
| Normal (a : A)
| Throw (e : JSValue).
Arguments Normal {A} a.
Arguments Throw {A} e.

Definition M (A : Type) : Type := World -> Completion A * World.

Definition ret {A} (a : A) : M A := fun w => (Normal a, w).

Definition throw {A} (e : JSValue) : M A := fun w => (Throw e, w).

Definition bind {A B} (m : M A) (k : A -> M B) : M B :=
  fun w =>
    match m w with
    | (Normal a, w') => k a w'
    | (Throw e, w') => (Throw e, w')
    end.

Notation "'let*' x := m 'in' k" := (bind m (fun x => k))
  (at level 10, x name, m at level 100, k at level 200).
Notation "m ;; k" := (bind m (fun _ => k))
  (at level 100, k at level 200, right associativity).

(** [try { m } catch (e) { h e }] *)
Definition try_catch {A} (m : M A) (h : JSValue -> M A) : M A :=
  fun w =>
    match m w with
    | (Normal a, w') => (Normal a, w')
    | (Throw e, w') => h e w'
    end.

Definition modify (f : World -> World) : M unit := fun w => (Normal tt, f w).

Definition gets {A} (f : World -> A) : M A := fun w => (Normal (f w), w).

Definition TypeError : JSValue := JError "TypeError".

(** ** Objects and their properties *)

Fixpoint get_prop (k : string) (ps : list (string * JSValue)) : option JSValue :=
  match ps with
  | [] => None
  | (k', v) :: ps' => if String.eqb k k' then Some v else get_prop k ps'
  end.

(** [{ ...ps, k: v }]: an existing property [k] keeps its place and takes the
    new value, a new one comes last. *)
Fixpoint set_prop (k : string) (v : JSValue) (ps : list (string * JSValue))
    : list (string * JSValue) :=
  match ps with
  | [] => [(k, v)]
  | (k', v') :: ps' =>
      if String.eqb k k' then (k, v) :: ps' else (k', v') :: set_prop k v ps'
  end.

(** The properties that the spread [...e] copies: those of an object, the
    indexed elements of an array or of a string, none for anything else. *)
Definition own_enumerable (e : JSValue) : list (string * JSValue) :=
  match e with
  | JObj ps => ps
  | JArr es => imap (fun i x => (pretty i, x)) es
  | JStr s => imap (fun i c => (pretty i, JStr (String c EmptyString))) (list_ascii_of_string s)
  | _ => []
  end.

(** [e => ({...e, shown: () => { NativeModules.QubitSDK.experienceShown(e) } })] *)
Definition decorate (e : JSValue) : JSValue :=
  JObj (set_prop "shown" (JShown e) (own_enumerable e)).

(** ** Promises *)

Definition alloc_promise (s : Settlement) : M loc :=
  fun w =>
    let p := next_loc w in
    (Normal p, set_next_loc S (set_promises (insert p (mkPromiseCell s [])) w)).

Definition job_of (s : Settlement) (r : Reaction) : Job :=
  mkJob (match s with
         | Fulfilled _ => on_fulfilled r
         | Rejected _ => on_rejected r
         | Pending => None
         end) s (derived r).

(** What the [resolve] and [reject] functions of promise [p] do: the first
    call settles [p] and schedules its reactions, any later call is ignored. *)
Definition settle (p : loc) (s : Settlement) : M unit :=
  fun w =>
    match s, promises w !! p with
    | Pending, _ => (Normal tt, w)
    | _, Some (mkPromiseCell Pending rs) =>
        (Normal tt,
         set_microtasks (fun q => q ++ map (job_of s) rs)
           (set_promises (insert p (mkPromiseCell s [])) w))
    | _, _ => (Normal tt, w)
    end.

(** [p.then(onF, onR)]; [p.then(f)] and [p.catch(g)] leave one handler out. *)
Definition then_ (p : loc) (onF onR : option Callback) : M loc :=
  fun w =>
    match promises w !! p with
    | None => (Throw TypeError, w)
    | Some (mkPromiseCell st rs) =>
        let d := next_loc w in
        let r := mkReaction onF onR d in
        let w1 := set_next_loc S (set_promises (insert d (mkPromiseCell Pending [])) w) in
        (Normal d,
         match st with
         | Pending => set_promises (insert p (mkPromiseCell Pending (rs ++ [r]))) w1
         | _ => set_microtasks (fun q => q ++ [job_of st r]) w1
         end)
    end.

(** [new Promise(executor)]: the executor runs at once with the [resolve] and
    [reject] of the new promise [p]; what it throws rejects [p]. *)
Definition new_Promise (executor : loc -> M unit) : M loc :=
  let* p := alloc_promise Pending in
  try_catch (executor p) (fun e => settle p (Rejected e)) ;;
  ret p.

(** [Promise.reject(reason)] *)
Definition Promise_reject (reason : JSValue) : M loc :=
  alloc_promise (Rejected reason).

Section Runtime.

Variable host : Host.

(** An invocation [NativeModules.QubitSDK.method(args)]: it is appended to the
    trace, then the native side throws or returns. *)
Definition call_native (c : NativeCall) : M Settlement :=
  fun w =>
    let w' := set_calls (fun cs => cs ++ [c]) w in
    match NativeModules_QubitSDK host (calls w) c with
    | Throws e => (Throw e, w')
    | Returns o => (Normal o, w')
    end.

(** A void method: the returned value is dropped. *)
Definition call_native_void (c : NativeCall) : M unit :=
  call_native c ;; ret tt.

(** A promise method: the bridge hands out a pending promise and keeps the
    settlement the native side is going to deliver for this call. *)
Definition call_native_promise (c : NativeCall) : M loc :=
  let* id := gets (fun w => length (calls w)) in
  let* o := call_native c in
  let* p := alloc_promise Pending in
  modify (set_replies (insert id (p, o))) ;;
  ret p.

(** Calling [() => { NativeModules.QubitSDK.experienceShown(e) }]: a block
    body without [return], so the call yields [undefined]. *)
Definition invoke_shown (e : JSValue) : M JSValue :=
  call_native_void (Native_experienceShown e) ;;
  ret JUndefined.

(** [experiences.map(e => ({...e, shown: ...}))]: [Array.prototype.map] on an
    array; on an object, whatever its own [map] property is, if callable; a
    [TypeError] on every other value. *)
Definition map_decorated (experiences : JSValue) : M JSValue :=
  match experiences with
  | JArr es => ret (JArr (map decorate es))
  | JObj ps =>
      match get_prop "map" ps with
      | Some (JShown e) => invoke_shown e
      | _ => throw TypeError
      end
  | _ => throw TypeError
  end.

Definition run_callback (cb : Callback) (x : JSValue) : M JSValue :=
  match cb with
  | Cb_resolve_decorated p =>
      (* experiences => resolve(experiences.map(...)) *)
      let* ds := map_decorated x in
      settle p (Fulfilled ds) ;;
      ret JUndefined
  | Cb_reject p =>
      (* reject *)
      settle p (Rejected x) ;;
      ret JUndefined
  end.

(** One promise reaction job: without a handler the settlement passes on to
    the derived promise; with one, the derived promise is fulfilled with what
    the handler returns or rejected with what it throws. *)
Definition run_job (j : Job) : M unit :=
  match job_arg j, job_handler j with
  | Pending, _ => ret tt
  | s, None => settle (job_derived j) s
  | Fulfilled x, Some cb | Rejected x, Some cb =>
      let* r := try_catch (let* y := run_callback cb x in ret (Fulfilled y))
                          (fun e => ret (Rejected e)) in
      settle (job_derived j) r
  end.

(** The microtask checkpoint: jobs run oldest first until none is left. *)
Fixpoint drain (fuel : nat) (w : World) : World :=
  match fuel with
  | 0 => w
  | S fuel' =>
      match microtasks w with
      | [] => w
      | j :: q => drain fuel' (snd (run_job j (set_microtasks (fun _ => q) w)))
      end
  end.

(** The native side answers call number [id] of the trace: the promise the
    bridge handed out is settled and the microtasks this causes are run. *)
Definition bridge_replies (fuel : nat) (id : nat) (w : World) : World :=
  match replies w !! id with
  | None | Some (_, Pending) => w
  | Some (p, s) => drain fuel (snd (settle p s (set_replies (delete id) w)))
  end.

End Runtime.

(** ** The facade: class [QubitSDK] *)

(** [new QubitSDK()]: the field initialisers [null] and ['WARN']. *)
Definition new_QubitSDK : M loc :=
  fun w =>
    let o := next_loc w in
    (Normal o, set_next_loc S (set_objects (insert o (mkQubitSDK None "WARN")) w)).

(** Reading a field of [this]; a [this] that is no instance has no fields. *)
Definition this_field {A} (this : loc) (field : QubitSDK -> A) : M A :=
  fun w =>
    match objects w !! this with
    | Some o => (Normal (field o), w)
    | None => (Throw TypeError, w)
    end.

(** The assignment [this.field = value]. *)
Definition this_assign (this : loc) (update : QubitSDK -> QubitSDK) : M unit :=
  fun w =>
    match objects w !! this with
    | Some o => (Normal tt, set_objects (insert this (update o)) w)
    | None => (Throw TypeError, w)
    end.

Section Facade.

Variable host : Host.

(** [Platform.OS === 'ios'] *)
Definition is_ios : bool := String.eqb (Platform_OS host) "ios".

Definition withLogLevel (this : loc) (logLevel : LogLevel) : M loc :=
  this_assign this (fun o => mkQubitSDK (_trackingId o) (LogLevel_literal logLevel)) ;;
  ret this.

Definition withTrackingId (this : loc) (trackingId : string) : M loc :=
  this_assign this (fun o => mkQubitSDK (Some trackingId) (_logLevel o)) ;;
  ret this.

Definition start (this : loc) : M unit :=
  if is_ios then ret tt else
  let* trackingId := this_field this _trackingId in
  let* logLevel := this_field this _logLevel in
  call_native_void host (Native_init trackingId logLevel).

Definition sendEvent (this : loc) (eventType : string) (eventBody : JSValue) : M unit :=
  if is_ios then ret tt else
  call_native_void host (Native_sendEvent eventType eventBody).

Definition enable (this : loc) (value : bool) : M unit :=
  if is_ios then ret tt else
  call_native_void host (Native_enableTracker value).

Definition getTrackingId (this : loc) : M loc :=
  if is_ios then Promise_reject JUndefined else
  call_native_promise host Native_getTrackingId.

Definition getDeviceId (this : loc) : M loc :=
  if is_ios then Promise_reject JUndefined else
  call_native_promise host Native_getDeviceId.

Definition getLookupData (this : loc) : M loc :=
  if is_ios then Promise_reject JUndefined else
  call_native_promise host Native_getLookupData.

Definition getExperiences (this : loc) (experienceIds : list float)
    (isconstiationSet : bool) (constiation : float) (isPreviewSet preview : bool)
    (isIgnoreSegmentsSet ignoreSegments : bool) : M loc :=
  new_Promise (fun p =>
    (if is_ios then settle p (Rejected JUndefined) else ret tt) ;;
    let* n := call_native_promise host
                (Native_getExperiences experienceIds isconstiationSet constiation
                   isPreviewSet preview isIgnoreSegmentsSet ignoreSegments) in
    let* t := then_ n (Some (Cb_resolve_decorated p)) None in
    let* c := then_ t None (Some (Cb_reject p)) in
    ret tt).

End Facade.

(** [export default new QubitSDK()]: the world once the module is loaded, and
    the one instance it exports. *)
Definition module_loaded : Completion loc * World := new_QubitSDK empty_world.

Definition default_export : loc := 0.

Definition loaded_world : World := snd module_loaded.

(** ** What happens around the facade *)

Section Application.

Variable host : Host.

(** The application calls a value with no argument, as in [e.shown()]. *)
Definition call_value (f : JSValue) : M JSValue :=
  match f with
  | JShown e => invoke_shown host e
  | _ => throw TypeError
  end.

(** Whatever can happen in a run of the application: it calls a method of the
    facade or a function it got from it, the current task ends and the
    microtasks run, or the native side answers a call. *)
Inductive Action : Type :=
| Do_withLogLevel (this : loc) (logLevel : LogLevel)
| Do_withTrackingId (this : loc) (trackingId : string)
| Do_start (this : loc)
| Do_sendEvent (this : loc) (eventType : string) (eventBody : JSValue)
| Do_enable (this : loc) (value : bool)
| Do_getTrackingId (this : loc)
| Do_getDeviceId (this : loc)
| Do_getLookupData (this : loc)
| Do_getExperiences (this : loc) (experienceIds : list float) (isconstiationSet : bool)
    (constiation : float) (isPreviewSet preview : bool)
    (isIgnoreSegmentsSet ignoreSegments : bool)
| Do_call (f : JSValue)
| Do_checkpoint (fuel : nat)
| Do_reply (fuel : nat) (id : nat).

Definition perform (a : Action) (w : World) : World :=
  match a with
  | Do_withLogLevel this l => snd (withLogLevel this l w)
  | Do_withTrackingId this s => snd (withTrackingId this s w)
  | Do_start this => snd (start host this w)
  | Do_sendEvent this t b => snd (sendEvent host this t b w)
  | Do_enable this v => snd (enable host this v w)
  | Do_getTrackingId this => snd (getTrackingId host this w)
  | Do_getDeviceId this => snd (getDeviceId host this w)
  | Do_getLookupData this => snd (getLookupData host this w)
  | Do_getExperiences this ids a1 v a2 p a3 i =>
      snd (getExperiences host this ids a1 v a2 p a3 i w)
  | Do_call f => snd (call_value f w)
  | Do_checkpoint fuel => drain host fuel w
  | Do_reply fuel id => bridge_replies host fuel id w
  end.

Definition run (acts : list Action) (w : World) : World :=
  fold_left (fun w a => perform a w) acts w.

End Application.

(** ** Sample hosts and values *)

(** The record [{id: 1, callback: "url"}]. *)
Definition sample_record : list (string * JSValue) :=
  [("id", JNum 1%float); ("callback", JStr "url")].

(** A native module that answers [getExperiences] with [[{id: 1, callback:
    "url"}]] and every other call with a promise it never settles. *)
Definition answering_native (_ : list NativeCall) (c : NativeCall) : NativeReply :=
  match c with
  | Native_getExperiences _ _ _ _ _ _ _ => Returns (Fulfilled (JArr [JObj sample_record]))
  | _ => Returns Pending
  end.

(** A native module that fails every call with the same reason. *)
Definition failing_native (reason : JSValue) (_ : list NativeCall) (_ : NativeCall)
    : NativeReply :=
  Returns (Rejected reason).

Definition android_host : Host := mkHost "android" answering_native.

Definition ios_host : Host := mkHost "ios" answering_native.

Definition failing_android_host : Host := mkHost "android" (failing_native (JStr "E_NETWORK")).

(** ** Vocabulary of the properties *)

(** Promise [p] exists and is in state [s]. *)
Definition settled_at (p : loc) (s : Settlement) (w : World) : Prop :=
  promise_state w p = Some s /\ p < next_loc w.

(** The computation [m] leaves promise [p] in state [s] if it finds it so. *)
Definition keeps (p : loc) (s : Settlement) {A} (m : M A) : Prop :=
  forall w, settled_at p s w -> settled_at p s (snd (m w)).

(** The call [m] returns a promise that is rejected with [reason] by the time
    the call returns, and that is still rejected with it after anything that
    happens later. *)
Definition rejects_immediately (host : Host) (reason : JSValue) (m : M loc) (w : World)
    : Prop :=
  exists p w1,
    m w = (Normal p, w1) /\
    promise_state w1 p = Some (Rejected reason) /\
    forall acts, promise_state (run host acts w1) p = Some (Rejected reason).

(** [e.shown()] on the element [e] of a resolved sequence. *)
Definition call_shown (host : Host) (e : list (string * JSValue)) : M JSValue :=
  match get_prop "shown" e with
  | Some f => call_value host f
  | None => throw TypeError
  end.

(** The element [d] of a resolved sequence is the native record [rec] with a
    [shown] function on top: every other property is the one of [rec], and
    calling [shown] invokes [experienceShown] once, on [rec] itself, and
    yields [undefined] whatever the native side returns. *)
Definition decoration_of (host : Host) (rec d : list (string * JSValue)) : Prop :=
  (forall k, k <> "shown" -> get_prop k d = get_prop k rec) /\
  get_prop "shown" d = Some (JShown (JObj rec)) /\
  (get_prop "shown" rec = None -> d = rec ++ [("shown", JShown (JObj rec))]) /\
  forall w,
    calls (snd (call_shown host d w)) = calls w ++ [Native_experienceShown (JObj rec)] /\
    forall o,
      NativeModules_QubitSDK host (calls w) (Native_experienceShown (JObj rec)) = Returns o ->
      call_shown host d w =
        (Normal JUndefined, set_calls (fun cs => cs ++ [Native_experienceShown (JObj rec)]) w).

(** The native side fails call [c], made by [m], with [r]: the promise that
    [m] returned is rejected with [r] once the answer is in, and the native
    module was invoked that one time only. *)
Definition propagates_failure (host : Host) (c : NativeCall) (m : M loc) (r : JSValue)
    (fuel : nat) (w : World) : Prop :=
  NativeModules_QubitSDK host (calls w) c = Returns (Rejected r) ->
  exists p,
    fst (m w) = Normal p /\
    let w2 := bridge_replies host fuel (length (calls w)) (snd (m w)) in
    promise_state w2 p = Some (Rejected r) /\
    (microtasks w = [] -> calls w2 = calls w ++ [c]).

(** The computation [m] assigns to no field of any instance. *)
Definition same_objects {A} (m : M A) : Prop :=
  forall w, objects (snd (m w)) = objects w.

(** Is the action a call of [withTrackingId], or of [withLogLevel], on [this]? *)
Definition is_withTrackingId (this : loc) (a : Action) : bool :=
  match a with
  | Do_withTrackingId this' _ => Nat.eqb this' this
  | _ => false
  end.

Definition is_withLogLevel (this : loc) (a : Action) : bool :=
  match a with
  | Do_withLogLevel this' _ => Nat.eqb this' this
  | _ => false
  end.

(** ** Vocabulary of the further properties *)

(** A native module that answers every call in the same way. *)
Definition constant_native (o : Settlement) (_ : list NativeCall) (_ : NativeCall)
    : NativeReply :=
  Returns o.

(** [e.shown()] on an element of whatever kind. *)
Definition shown_method (host : Host) (e : JSValue) : M JSValue :=
  match e with
  | JObj ps => call_shown host ps
  | _ => throw TypeError
  end.

(** [experiences.forEach(e => e.shown())], the use that the documentation of
    [getExperiences] shows. *)
Fixpoint forEach_shown (host : Host) (experiences : list JSValue) : M unit :=
  match experiences with
  | [] => ret tt
  | e :: rest => shown_method host e ;; forEach_shown host rest
  end.

(** Is [v.map] a function? It is [Array.prototype.map] on an array, and an
    object may carry a function of its own under that name. *)
Definition has_map (v : JSValue) : bool :=
  match v with
  | JArr _ => true
  | JObj ps =>
      match get_prop "map" ps with
      | Some (JShown _) => true
      | _ => false
      end
  | _ => false
  end.

(** The promise that [m] returns is the one of the native call [c]: pending
    when [m] returns, and in the end whatever the native side makes of it. *)
Definition mirrors_native (host : Host) (c : NativeCall) (m : M loc) (fuel : nat)
    (w : World) : Prop :=
  forall o,
    NativeModules_QubitSDK host (calls w) c = Returns o ->
    exists p w1,
      m w = (Normal p, w1) /\
      promise_state w1 p = Some Pending /\
      promise_state (bridge_replies host fuel (length (calls w)) w1) p = Some o.

(** The actions of an application that is done with its configuration: calls
    of the facade other than the two setters, and calls of functions. *)
Definition is_operation (a : Action) : bool :=
  match a with
  | Do_withLogLevel _ _ | Do_withTrackingId _ _ | Do_checkpoint _ | Do_reply _ _ => false
  | _ => true
  end.

Definition is_setter (a : Action) : bool :=
  match a with
  | Do_withLogLevel _ _ | Do_withTrackingId _ _ => true
  | _ => false
  end.

(** The invocations of the native module that one action is due to make,
    given the platform and the configuration of the instances. *)
Definition forwarded (host : Host) (objs : gmap loc QubitSDK) (a : Action)
    : list NativeCall :=
  match a with
  | Do_start this =>
      match objs !! this with
      | Some o => if is_ios host then [] else [Native_init (_trackingId o) (_logLevel o)]
      | None => []
      end
  | Do_sendEvent _ eventType eventBody =>
      if is_ios host then [] else [Native_sendEvent eventType eventBody]
  | Do_enable _ value => if is_ios host then [] else [Native_enableTracker value]
  | Do_getTrackingId _ => if is_ios host then [] else [Native_getTrackingId]
  | Do_getDeviceId _ => if is_ios host then [] else [Native_getDeviceId]
  | Do_getLookupData _ => if is_ios host then [] else [Native_getLookupData]
  | Do_getExperiences _ ids a1 v a2 p a3 i => [Native_getExperiences ids a1 v a2 p a3 i]
  | Do_call (JShown e) => [Native_experienceShown e]
  | _ => []
  end.

(** * Properties *)

(** ** Symbolic execution *)

Ltac heap :=
  repeat first
    [ rewrite lookup_insert_eq
    | rewrite lookup_insert_ne by lia
    | rewrite lookup_delete_eq
    | rewrite lookup_delete_ne by lia ].

Ltac exec := repeat (cbn -[insert lookup delete]; heap).

Ltac unfold_runtime :=
  unfold new_Promise, Promise_reject, call_native_promise, call_native_void,
    invoke_shown, then_, settle, alloc_promise, call_native, this_field,
    this_assign, try_catch, bind, gets, modify, ret, throw.

Lemma world_eq w w' :
  objects w = objects w' -> promises w = promises w' -> replies w = replies w' ->
  microtasks w = microtasks w' -> calls w = calls w' -> next_loc w = next_loc w' ->
  w = w'.
Proof. destruct w, w'. cbn. intros. subst. reflexivity. Qed.

Ltac same_world :=
  f_equal; apply world_eq; cbn -[insert lookup delete];
  rewrite ?insert_insert_eq, ?app_nil_r; reflexivity.

Section Platform.

Variable host : Host.

Lemma is_ios_true : Platform_OS host = "ios" -> is_ios host = true.
Proof. intros H. unfold is_ios. rewrite H. reflexivity. Qed.

Lemma is_ios_false : Platform_OS host <> "ios" -> is_ios host = false.
Proof. intros H. unfold is_ios. now apply String.eqb_neq. Qed.

End Platform.

(** ** The synchronous part of [getExperiences] *)

Section GetExperiences.

Variable host : Host.

(** When the native call returns: four promises are allocated (the one
    returned, the one of the bridge, those of [then] and [catch]), the call is
    in the trace, and nothing is scheduled yet. *)
Lemma getExperiences_returns this ids a v b c d e w o :
  NativeModules_QubitSDK host (calls w) (Native_getExperiences ids a v b c d e) = Returns o ->
  let p := next_loc w in
  getExperiences host this ids a v b c d e w =
  (Normal p,
   mkWorld (objects w)
     (<[S (S p) := mkPromiseCell Pending [mkReaction None (Some (Cb_reject p)) (S (S (S p)))]]>
       (<[S (S (S p)) := mkPromiseCell Pending []]>
         (<[S p := mkPromiseCell Pending [mkReaction (Some (Cb_resolve_decorated p)) None (S (S p))]]>
           (<[S (S p) := mkPromiseCell Pending []]>
             (<[S p := mkPromiseCell Pending []]>
               (<[p := mkPromiseCell (if is_ios host then Rejected JUndefined else Pending) []]>
                  (promises w)))))))
     (<[length (calls w) := (S p, o)]> (replies w))
     (microtasks w)
     (calls w ++ [Native_getExperiences ids a v b c d e])
     (S (S (S (S p))))).
Proof.
  intros E p. subst p. unfold getExperiences. unfold_runtime.
  destruct (is_ios host); exec; rewrite E; exec; same_world.
Qed.

(** When the native call throws: the executor is left at once and the
    exception rejects the promise, unless it is rejected already. *)
Lemma getExperiences_throws this ids a v b c d e w x :
  NativeModules_QubitSDK host (calls w) (Native_getExperiences ids a v b c d e) = Throws x ->
  let p := next_loc w in
  getExperiences host this ids a v b c d e w =
  (Normal p,
   mkWorld (objects w)
     (<[p := mkPromiseCell (if is_ios host then Rejected JUndefined else Rejected x) []]>
        (promises w))
     (replies w)
     (microtasks w)
     (calls w ++ [Native_getExperiences ids a v b c d e])
     (S p)).
Proof.
  intros E p. subst p. unfold getExperiences. unfold_runtime.
  destruct (is_ios host); exec; rewrite E; exec; same_world.
Qed.

End GetExperiences.

(** ** The native side answers [getExperiences] *)

Section Replies.

Variable host : Host.

Lemma drain_nothing fuel w : microtasks w = [] -> drain host fuel w = w.
Proof. intros H. destruct fuel; cbn; [reflexivity | now rewrite H]. Qed.

(** An array from the native side: the [then] handler decorates it and
    resolves the returned promise. *)
Lemma getExperiences_fulfilled_array this ids a v b c d e w es fuel :
  Platform_OS host <> "ios" ->
  microtasks w = [] ->
  NativeModules_QubitSDK host (calls w) (Native_getExperiences ids a v b c d e) =
    Returns (Fulfilled (JArr es)) ->
  2 <= fuel ->
  let w2 := bridge_replies host fuel (length (calls w))
              (snd (getExperiences host this ids a v b c d e w)) in
  promise_state w2 (next_loc w) = Some (Fulfilled (JArr (map decorate es))) /\
  microtasks w2 = [] /\
  calls w2 = calls w ++ [Native_getExperiences ids a v b c d e].
Proof.
  intros Hos Hq E Hfuel.
  rewrite (getExperiences_returns host _ _ _ _ _ _ _ _ _ _ E), (is_ios_false host Hos).
  destruct fuel as [|[|fuel]]; try lia.
  unfold bridge_replies, promise_state. cbn. heap. rewrite Hq.
  unfold run_job, run_callback, map_decorated. unfold_runtime. exec.
  rewrite drain_nothing by reflexivity. exec. auto.
Qed.

(** A failure from the native side: it passes [then] untouched and the
    [catch] handler rejects the returned promise with it. *)
Lemma getExperiences_rejected this ids a v b c d e w r fuel :
  Platform_OS host <> "ios" ->
  microtasks w = [] ->
  NativeModules_QubitSDK host (calls w) (Native_getExperiences ids a v b c d e) =
    Returns (Rejected r) ->
  2 <= fuel ->
  let w2 := bridge_replies host fuel (length (calls w))
              (snd (getExperiences host this ids a v b c d e w)) in
  promise_state w2 (next_loc w) = Some (Rejected r) /\
  microtasks w2 = [] /\
  calls w2 = calls w ++ [Native_getExperiences ids a v b c d e].
Proof.
  intros Hos Hq E Hfuel.
  rewrite (getExperiences_returns host _ _ _ _ _ _ _ _ _ _ E), (is_ios_false host Hos).
  destruct fuel as [|[|fuel]]; try lia.
  unfold bridge_replies, promise_state. cbn. heap. rewrite Hq.
  unfold run_job, run_callback, map_decorated. unfold_runtime. exec.
  rewrite drain_nothing by reflexivity. exec. auto.
Qed.

End Replies.

(** ** A settled promise stays as it is *)

Section Settled.

Variable host : Host.
Variable p : loc.
Variable s : Settlement.
Hypothesis settled : s <> Pending.

Lemma keeps_ret {A} (a : A) : keeps p s (ret a).
Proof. intros w H. exact H. Qed.

Lemma keeps_throw {A} (e : JSValue) : keeps p s (@throw A e).
Proof. intros w H. exact H. Qed.

Lemma keeps_gets {A} (f : World -> A) : keeps p s (gets f).
Proof. intros w H. exact H. Qed.

Lemma keeps_bind {A B} (m : M A) (k : A -> M B) :
  keeps p s m -> (forall a, keeps p s (k a)) -> keeps p s (bind m k).
Proof.
  intros Hm Hk w H. unfold bind. specialize (Hm w H).
  destruct (m w) as [[a|e] w']; cbn in *; [now apply Hk | exact Hm].
Qed.

Lemma keeps_try_catch {A} (m : M A) (h : JSValue -> M A) :
  keeps p s m -> (forall e, keeps p s (h e)) -> keeps p s (try_catch m h).
Proof.
  intros Hm Hh w H. unfold try_catch. specialize (Hm w H).
  destruct (m w) as [[a|e] w']; cbn in *; [exact Hm | now apply Hh].
Qed.

Lemma keeps_set_replies f : keeps p s (modify (set_replies f)).
Proof. intros w H. exact H. Qed.

Lemma keeps_alloc_promise s' : keeps p s (alloc_promise s').
Proof.
  intros w [H Hp]. unfold settled_at, promise_state in *. cbn.
  rewrite lookup_insert_ne by lia. split; [exact H | lia].
Qed.

Lemma not_pending_here w rs :
  settled_at p s w -> promises w !! p <> Some (mkPromiseCell Pending rs).
Proof.
  intros [H _] E. unfold promise_state in H. rewrite E in H. cbn in H.
  apply settled. congruence.
Qed.

Lemma keeps_settle q s' : keeps p s (settle q s').
Proof.
  intros w H. unfold settle.
  destruct s'; [exact H | |];
    (destruct (promises w !! q) as [[[] rs]|] eqn:E; try exact H;
     assert (q <> p) by (intros ->; exact (not_pending_here w rs H E));
     destruct H as [H Hp]; split; [|exact Hp];
     unfold promise_state in *; cbn; now rewrite lookup_insert_ne).
Qed.

Lemma keeps_then q onF onR : keeps p s (then_ q onF onR).
Proof.
  intros w H. unfold then_.
  destruct (promises w !! q) as [[st rs]|] eqn:E; [|exact H].
  destruct st.
  - assert (q <> p) by (intros ->; exact (not_pending_here w rs H E)).
    destruct H as [H Hp]. split; [|cbn; lia].
    unfold promise_state in *. cbn. now rewrite !lookup_insert_ne by lia.
  - destruct H as [H Hp]. split; [|cbn; lia].
    unfold promise_state in *. cbn. now rewrite lookup_insert_ne by lia.
  - destruct H as [H Hp]. split; [|cbn; lia].
    unfold promise_state in *. cbn. now rewrite lookup_insert_ne by lia.
Qed.

Lemma keeps_new_Promise executor :
  (forall q, keeps p s (executor q)) -> keeps p s (new_Promise executor).
Proof.
  intros H. unfold new_Promise.
  apply keeps_bind; [apply keeps_alloc_promise | intros q].
  apply keeps_bind; [|intros; apply keeps_ret].
  apply keeps_try_catch; [apply H | intros; apply keeps_settle].
Qed.

Lemma keeps_call_native c : keeps p s (call_native host c).
Proof.
  intros w H. unfold call_native.
  destruct (NativeModules_QubitSDK host (calls w) c); exact H.
Qed.

Lemma keeps_call_native_void c : keeps p s (call_native_void host c).
Proof.
  unfold call_native_void.
  apply keeps_bind; [apply keeps_call_native | intros; apply keeps_ret].
Qed.

Lemma keeps_call_native_promise c : keeps p s (call_native_promise host c).
Proof.
  unfold call_native_promise.
  apply keeps_bind; [apply keeps_gets | intros id].
  apply keeps_bind; [apply keeps_call_native | intros o].
  apply keeps_bind; [apply keeps_alloc_promise | intros n].
  apply keeps_bind; [apply keeps_set_replies | intros; apply keeps_ret].
Qed.

Lemma keeps_invoke_shown e : keeps p s (invoke_shown host e).
Proof.
  unfold invoke_shown.
  apply keeps_bind; [apply keeps_call_native_void | intros; apply keeps_ret].
Qed.

Lemma keeps_map_decorated x : keeps p s (map_decorated host x).
Proof.
  destruct x; cbn; try apply keeps_throw; [apply keeps_ret|].
  destruct (get_prop "map" props) as [[]|];
    try apply keeps_throw. apply keeps_invoke_shown.
Qed.

Lemma keeps_run_callback cb x : keeps p s (run_callback host cb x).
Proof.
  destruct cb; cbn.
  - apply keeps_bind; [apply keeps_map_decorated | intros ds].
    apply keeps_bind; [apply keeps_settle | intros; apply keeps_ret].
  - apply keeps_bind; [apply keeps_settle | intros; apply keeps_ret].
Qed.

Lemma keeps_run_job j : keeps p s (run_job host j).
Proof.
  unfold run_job.
  destruct (job_arg j), (job_handler j);
    try apply keeps_ret; try apply keeps_settle;
    (apply keeps_bind; [|intros; apply keeps_settle]);
    (apply keeps_try_catch; [|intros; apply keeps_ret]);
    (apply keeps_bind; [apply keeps_run_callback | intros; apply keeps_ret]).
Qed.

Lemma drain_keeps fuel w : settled_at p s w -> settled_at p s (drain host fuel w).
Proof.
  revert w. induction fuel as [|fuel IH]; intros w H; cbn; [exact H|].
  destruct (microtasks w) as [|j q]; [exact H|].
  apply IH. apply keeps_run_job. exact H.
Qed.

Lemma bridge_replies_keeps fuel id w :
  settled_at p s w -> settled_at p s (bridge_replies host fuel id w).
Proof.
  intros H. unfold bridge_replies.
  destruct (replies w !! id) as [[q []]|]; try exact H;
    apply drain_keeps; apply keeps_settle; exact H.
Qed.

Lemma keeps_this_assign this f : keeps p s (this_assign this f).
Proof.
  intros w H. unfold this_assign. destruct (objects w !! this); exact H.
Qed.

Lemma keeps_this_field {A} this (f : QubitSDK -> A) : keeps p s (this_field this f).
Proof.
  intros w H. unfold this_field. destruct (objects w !! this); exact H.
Qed.

Lemma keeps_getExperiences this ids a v b c d e :
  keeps p s (getExperiences host this ids a v b c d e).
Proof.
  unfold getExperiences. apply keeps_new_Promise. intros q.
  apply keeps_bind; [destruct (is_ios host); [apply keeps_settle | apply keeps_ret] | intros _].
  apply keeps_bind; [apply keeps_call_native_promise | intros n].
  apply keeps_bind; [apply keeps_then | intros t].
  apply keeps_bind; [apply keeps_then | intros; apply keeps_ret].
Qed.

Lemma perform_keeps a w : settled_at p s w -> settled_at p s (perform host a w).
Proof.
  intros H. destruct a; cbn [perform].
  - apply (keeps_bind (this_assign _ _)); [apply keeps_this_assign | intros; apply keeps_ret|exact H].
  - apply (keeps_bind (this_assign _ _)); [apply keeps_this_assign | intros; apply keeps_ret|exact H].
  - unfold start. destruct (is_ios host); [exact H|].
    revert w H. apply keeps_bind; [apply keeps_this_field | intros].
    apply keeps_bind; [apply keeps_this_field | intros]. apply keeps_call_native_void.
  - unfold sendEvent. destruct (is_ios host); [exact H|]. now apply keeps_call_native_void.
  - unfold enable. destruct (is_ios host); [exact H|]. now apply keeps_call_native_void.
  - unfold getTrackingId. destruct (is_ios host);
      [now apply keeps_alloc_promise | now apply keeps_call_native_promise].
  - unfold getDeviceId. destruct (is_ios host);
      [now apply keeps_alloc_promise | now apply keeps_call_native_promise].
  - unfold getLookupData. destruct (is_ios host);
      [now apply keeps_alloc_promise | now apply keeps_call_native_promise].
  - now apply keeps_getExperiences.
  - destruct f; try exact H. now apply keeps_invoke_shown.
  - now apply drain_keeps.
  - now apply bridge_replies_keeps.
Qed.

(** Once settled, a promise is in the same state after anything the
    application, the microtasks and the native side do. *)
Lemma settled_forever acts w :
  settled_at p s w -> settled_at p s (run host acts w).
Proof.
  revert w. induction acts as [|a acts IH]; intros w H; cbn; [exact H|].
  apply IH. now apply perform_keeps.
Qed.

End Settled.

(** ** Properties of objects *)

Lemma get_prop_set_prop_eq k v ps : get_prop k (set_prop k v ps) = Some v.
Proof.
  induction ps as [|[k' v'] ps IH]; cbn.
  - now rewrite String.eqb_refl.
  - destruct (String.eqb k k') eqn:E; cbn; rewrite ?String.eqb_refl, ?E; auto.
Qed.

Lemma get_prop_set_prop_ne k k' v ps :
  k' <> k -> get_prop k' (set_prop k v ps) = get_prop k' ps.
Proof.
  intros Hne. apply String.eqb_neq in Hne.
  induction ps as [|[k0 v0] ps IH]; cbn.
  - now rewrite Hne.
  - destruct (String.eqb k k0) eqn:E; cbn.
    + apply String.eqb_eq in E. subst k0. now rewrite Hne.
    + now rewrite IH.
Qed.

Lemma set_prop_new k v ps : get_prop k ps = None -> set_prop k v ps = ps ++ [(k, v)].
Proof.
  induction ps as [|[k' v'] ps IH]; cbn; [reflexivity|].
  destruct (String.eqb k k'); [discriminate | intros H; now rewrite IH].
Qed.

(** ** The accessors on the unsupported platform *)

Section Unsupported.

Variable host : Host.
Hypothesis unsupported : Platform_OS host = "ios".

Lemma Promise_reject_rejects_immediately reason w :
  rejects_immediately host reason (Promise_reject reason) w.
Proof.
  eexists _, _. split; [reflexivity|].
  assert (H : settled_at (next_loc w) (Rejected reason) (snd (Promise_reject reason w))).
  { split; [|cbn; lia]. unfold promise_state. cbn. now rewrite lookup_insert_eq. }
  split; [apply H|]. intros acts.
  exact (proj1 (settled_forever host (next_loc w) (Rejected reason) ltac:(discriminate)
                  acts _ H)).
Qed.

Lemma getExperiences_unsupported this ids a v b c d e w :
  rejects_immediately host JUndefined (getExperiences host this ids a v b c d e) w /\
  calls (snd (getExperiences host this ids a v b c d e w)) =
    calls w ++ [Native_getExperiences ids a v b c d e] /\
  microtasks (snd (getExperiences host this ids a v b c d e w)) = microtasks w.
Proof.
  assert (H : exists w1,
    getExperiences host this ids a v b c d e w = (Normal (next_loc w), w1) /\
    settled_at (next_loc w) (Rejected JUndefined) w1 /\
    calls w1 = calls w ++ [Native_getExperiences ids a v b c d e] /\
    microtasks w1 = microtasks w).
  { destruct (NativeModules_QubitSDK host (calls w) (Native_getExperiences ids a v b c d e))
      as [x|o] eqn:E.
    - rewrite (getExperiences_throws host _ _ _ _ _ _ _ _ _ _ E), (is_ios_true host unsupported).
      eexists. split; [reflexivity|]. split; [|split; reflexivity].
      split; [|cbn; lia]. unfold promise_state. cbn. now rewrite lookup_insert_eq.
    - rewrite (getExperiences_returns host _ _ _ _ _ _ _ _ _ _ E), (is_ios_true host unsupported).
      eexists. split; [reflexivity|]. split; [|split; reflexivity].
      split; [|cbn; lia]. unfold promise_state. cbn.
      now rewrite !lookup_insert_ne, lookup_insert_eq by lia. }
  destruct H as (w1 & Hrun & Hset & Hcalls & Hq). split.
  - exists (next_loc w), w1. split; [exact Hrun|]. split; [apply Hset|].
    intros acts.
    exact (proj1 (settled_forever host (next_loc w) (Rejected JUndefined) ltac:(discriminate)
                    acts _ Hset)).
  - now rewrite Hrun.
Qed.

End Unsupported.

(** ** The accessors on a supported platform *)

Section Supported.

Variable host : Host.
Hypothesis supported : Platform_OS host <> "ios".

Lemma call_native_promise_propagates_failure c r fuel w :
  propagates_failure host c (call_native_promise host c) r fuel w.
Proof.
  intros E. exists (next_loc w).
  unfold call_native_promise. unfold_runtime. cbn. rewrite E. cbn.
  split; [reflexivity|].
  unfold bridge_replies. cbn. heap. unfold settle. exec.
  split.
  - apply drain_keeps; [discriminate|].
    split; [|cbn; lia]. unfold promise_state. cbn. now rewrite lookup_insert_eq.
  - intros Hq. rewrite drain_nothing; cbn; [reflexivity | now rewrite Hq].
Qed.

Lemma decorate_record rec : decoration_of host rec (set_prop "shown" (JShown (JObj rec)) rec).
Proof.
  assert (Hshown : forall ps, call_shown host (set_prop "shown" (JShown (JObj rec)) ps) =
                              invoke_shown host (JObj rec)).
  { intros ps. unfold call_shown. now rewrite get_prop_set_prop_eq. }
  split; [intros k Hk; now apply get_prop_set_prop_ne|].
  split; [apply get_prop_set_prop_eq|].
  split; [apply set_prop_new|].
  intros w. rewrite Hshown. unfold invoke_shown. unfold_runtime. split.
  - cbn. now destruct (NativeModules_QubitSDK host (calls w) _).
  - intros o E. cbn. now rewrite E.
Qed.

End Supported.

(** ** The configuration changes through the two setters only *)

Section Configuration.

Variable host : Host.

Lemma same_objects_ret {A} (a : A) : same_objects (ret a).
Proof. intros w. reflexivity. Qed.

Lemma same_objects_bind {A B} (m : M A) (k : A -> M B) :
  same_objects m -> (forall a, same_objects (k a)) -> same_objects (bind m k).
Proof.
  intros Hm Hk w. unfold bind. specialize (Hm w).
  destruct (m w) as [[a|e] w']; cbn in *; [now rewrite Hk | exact Hm].
Qed.

Lemma same_objects_try_catch {A} (m : M A) (h : JSValue -> M A) :
  same_objects m -> (forall e, same_objects (h e)) -> same_objects (try_catch m h).
Proof.
  intros Hm Hh w. unfold try_catch. specialize (Hm w).
  destruct (m w) as [[a|e] w']; cbn in *; [exact Hm | now rewrite Hh].
Qed.

Lemma same_objects_alloc_promise s : same_objects (alloc_promise s).
Proof. intros w. reflexivity. Qed.

Lemma same_objects_settle q s : same_objects (settle q s).
Proof.
  intros w. unfold settle.
  destruct s; [reflexivity | |]; now destruct (promises w !! q) as [[[] rs]|].
Qed.

Lemma same_objects_then q onF onR : same_objects (then_ q onF onR).
Proof.
  intros w. unfold then_. now destruct (promises w !! q) as [[[] rs]|].
Qed.

Lemma same_objects_call_native c : same_objects (call_native host c).
Proof.
  intros w. unfold call_native. now destruct (NativeModules_QubitSDK host (calls w) c).
Qed.

Lemma same_objects_call_native_void c : same_objects (call_native_void host c).
Proof.
  apply same_objects_bind; [apply same_objects_call_native | intros; apply same_objects_ret].
Qed.

Lemma same_objects_call_native_promise c : same_objects (call_native_promise host c).
Proof.
  unfold call_native_promise.
  apply same_objects_bind; [intros w; reflexivity | intros id].
  apply same_objects_bind; [apply same_objects_call_native | intros o].
  apply same_objects_bind; [apply same_objects_alloc_promise | intros n].
  apply same_objects_bind; [intros w; reflexivity | intros; apply same_objects_ret].
Qed.

Lemma same_objects_invoke_shown e : same_objects (invoke_shown host e).
Proof.
  apply same_objects_bind; [apply same_objects_call_native_void | intros; apply same_objects_ret].
Qed.

Lemma same_objects_call_value f : same_objects (call_value host f).
Proof.
  destruct f; try (intros w; reflexivity). apply same_objects_invoke_shown.
Qed.

Lemma same_objects_run_callback cb x : same_objects (run_callback host cb x).
Proof.
  destruct cb; cbn.
  - apply same_objects_bind.
    + destruct x; cbn; try (intros w; reflexivity).
      destruct (get_prop "map" props) as [[]|]; try (intros w; reflexivity).
      apply same_objects_invoke_shown.
    + intros ds.
      apply same_objects_bind; [apply same_objects_settle | intros; apply same_objects_ret].
  - apply same_objects_bind; [apply same_objects_settle | intros; apply same_objects_ret].
Qed.

Lemma same_objects_run_job j : same_objects (run_job host j).
Proof.
  unfold run_job.
  destruct (job_arg j), (job_handler j);
    try apply same_objects_ret; try apply same_objects_settle;
    (apply same_objects_bind; [|intros; apply same_objects_settle]);
    (apply same_objects_try_catch; [|intros; apply same_objects_ret]);
    (apply same_objects_bind; [apply same_objects_run_callback | intros; apply same_objects_ret]).
Qed.

Lemma drain_same_objects fuel w : objects (drain host fuel w) = objects w.
Proof.
  revert w. induction fuel as [|fuel IH]; intros w; cbn; [reflexivity|].
  destruct (microtasks w) as [|j q]; [reflexivity|].
  rewrite IH. now rewrite same_objects_run_job.
Qed.

Lemma bridge_replies_same_objects fuel id w :
  objects (bridge_replies host fuel id w) = objects w.
Proof.
  unfold bridge_replies.
  destruct (replies w !! id) as [[q []]|]; try reflexivity;
    now rewrite drain_same_objects, same_objects_settle.
Qed.

Lemma same_objects_getExperiences this ids a v b c d e :
  same_objects (getExperiences host this ids a v b c d e).
Proof.
  unfold getExperiences, new_Promise.
  apply same_objects_bind; [apply same_objects_alloc_promise | intros q].
  apply same_objects_bind; [|intros; apply same_objects_ret].
  apply same_objects_try_catch; [|intros; apply same_objects_settle].
  apply same_objects_bind;
    [destruct (is_ios host); [apply same_objects_settle | apply same_objects_ret] | intros _].
  apply same_objects_bind; [apply same_objects_call_native_promise | intros n].
  apply same_objects_bind; [apply same_objects_then | intros t].
  apply same_objects_bind; [apply same_objects_then | intros; apply same_objects_ret].
Qed.

Lemma same_objects_this_field {A} this (f : QubitSDK -> A) : same_objects (this_field this f).
Proof.
  intros w. unfold this_field. now destruct (objects w !! this).
Qed.

Lemma same_objects_start this : same_objects (start host this).
Proof.
  unfold start. destruct (is_ios host); [apply same_objects_ret|].
  apply same_objects_bind; [apply same_objects_this_field | intros trackingId].
  apply same_objects_bind; [apply same_objects_this_field | intros logLevel].
  apply same_objects_call_native_void.
Qed.

(** An instance stays an instance, and each of its two fields keeps its
    value through every action that is not a call of its setter. *)
Lemma perform_instance this o a w :
  objects w !! this = Some o ->
  exists o',
    objects (perform host a w) !! this = Some o' /\
    (is_withTrackingId this a = false -> _trackingId o' = _trackingId o) /\
    (is_withLogLevel this a = false -> _logLevel o' = _logLevel o).
Proof.
  intros Hthis.
  assert (Hsame : objects (perform host a w) = objects w -> exists o',
    objects (perform host a w) !! this = Some o' /\
    (is_withTrackingId this a = false -> _trackingId o' = _trackingId o) /\
    (is_withLogLevel this a = false -> _logLevel o' = _logLevel o)).
  { intros ->. exists o. auto. }
  destruct a; [| |apply Hsame; cbn [perform]..].
  - cbn [perform]. unfold withLogLevel, this_assign, bind.
    destruct (objects w !! this0) as [o0|] eqn:E; cbn; [|exists o; auto].
    destruct (Nat.eqb this0 this) eqn:En.
    + apply Nat.eqb_eq in En. subst this0. rewrite lookup_insert_eq.
      eexists. split; [reflexivity|]. cbn. split; [congruence | discriminate].
    + apply Nat.eqb_neq in En. rewrite lookup_insert_ne by exact En. exists o. auto.
  - cbn [perform]. unfold withTrackingId, this_assign, bind.
    destruct (objects w !! this0) as [o0|] eqn:E; cbn; [|exists o; auto].
    destruct (Nat.eqb this0 this) eqn:En.
    + apply Nat.eqb_eq in En. subst this0. rewrite lookup_insert_eq.
      eexists. split; [reflexivity|]. cbn. split; [discriminate | congruence].
    + apply Nat.eqb_neq in En. rewrite lookup_insert_ne by exact En. exists o. auto.
  - apply same_objects_start.
  - unfold sendEvent. destruct (is_ios host); [reflexivity|]. apply same_objects_call_native_void.
  - unfold enable. destruct (is_ios host); [reflexivity|]. apply same_objects_call_native_void.
  - unfold getTrackingId. destruct (is_ios host);
      [reflexivity | apply same_objects_call_native_promise].
  - unfold getDeviceId. destruct (is_ios host);
      [reflexivity | apply same_objects_call_native_promise].
  - unfold getLookupData. destruct (is_ios host);
      [reflexivity | apply same_objects_call_native_promise].
  - apply same_objects_getExperiences.
  - apply same_objects_call_value.
  - apply drain_same_objects.
  - apply bridge_replies_same_objects.
Qed.

Lemma run_instance this acts : forall o w,
  objects w !! this = Some o ->
  exists o',
    objects (run host acts w) !! this = Some o' /\
    (forallb (fun a => negb (is_withTrackingId this a)) acts = true ->
     _trackingId o' = _trackingId o) /\
    (forallb (fun a => negb (is_withLogLevel this a)) acts = true ->
     _logLevel o' = _logLevel o).
Proof.
  induction acts as [|a acts IH]; intros o w Hthis; cbn; [exists o; auto|].
  destruct (perform_instance this o a w Hthis) as (o1 & H1 & Ht1 & Hl1).
  destruct (IH o1 _ H1) as (o2 & H2 & Ht2 & Hl2).
  exists o2. split; [exact H2|].
  split; intros H; apply andb_prop in H as [Ha Hacts]; apply negb_true_iff in Ha.
  - rewrite (Ht2 Hacts). auto.
  - rewrite (Hl2 Hacts). auto.
Qed.

(** On a supported platform [start] invokes [init] with the two fields. *)
Lemma start_calls_init this o w :
  Platform_OS host <> "ios" ->
  objects w !! this = Some o ->
  calls (snd (start host this w)) = calls w ++ [Native_init (_trackingId o) (_logLevel o)].
Proof.
  intros Hos Hthis. unfold start. rewrite (is_ios_false host Hos).
  unfold_runtime. rewrite Hthis. cbn -[insert lookup delete]. rewrite Hthis.
  now destruct (NativeModules_QubitSDK host (calls w) (Native_init (_trackingId o) (_logLevel o))).
Qed.

End Configuration.

(** ** The model at work *)

Example module_loaded_exports_instance :
  fst module_loaded = Normal default_export /\
  objects loaded_world !! default_export = Some (mkQubitSDK None "WARN").
Proof. split; reflexivity. Qed.

Example decorate_sample_record :
  decorate (JObj sample_record) =
  JObj [("id", JNum 1%float); ("callback", JStr "url"); ("shown", JShown (JObj sample_record))].
Proof. reflexivity. Qed.

Example decorate_overrides_shown :
  decorate (JObj [("shown", JNull); ("id", JNum 1%float)]) =
  JObj [("shown", JShown (JObj [("shown", JNull); ("id", JNum 1%float)]));
        ("id", JNum 1%float)].
Proof. reflexivity. Qed.

Example android_getExperiences_resolves :
  let w1 := snd (getExperiences android_host default_export [] false 0%float false false
                   false false loaded_world) in
  promise_state w1 1 = Some Pending /\
  promise_state (bridge_replies android_host 2 0 w1) 1 =
    Some (Fulfilled (JArr [decorate (JObj sample_record)])).
Proof. split; vm_compute; reflexivity. Qed.

Example ios_getExperiences_rejects_and_calls :
  let w1 := snd (getExperiences ios_host default_export [] false 0%float false false
                   false false loaded_world) in
  promise_state w1 1 = Some (Rejected JUndefined) /\
  calls w1 = [Native_getExperiences [] false 0%float false false false false] /\
  promise_state (bridge_replies ios_host 2 0 w1) 1 = Some (Rejected JUndefined).
Proof. repeat split; vm_compute; reflexivity. Qed.

Example ios_getTrackingId_rejects_without_call :
  let w1 := snd (getTrackingId ios_host default_export loaded_world) in
  promise_state w1 1 = Some (Rejected JUndefined) /\ calls w1 = [].
Proof. split; vm_compute; reflexivity. Qed.

Example failing_getTrackingId_rejects :
  let w1 := snd (getTrackingId failing_android_host default_export loaded_world) in
  promise_state w1 1 = Some Pending /\
  promise_state (bridge_replies failing_android_host 0 0 w1) 1 =
    Some (Rejected (JStr "E_NETWORK")).
Proof. split; vm_compute; reflexivity. Qed.

Example failing_getExperiences_rejects :
  let w1 := snd (getExperiences failing_android_host default_export [] false 0%float false
                   false false false loaded_world) in
  promise_state (bridge_replies failing_android_host 1 0 w1) 1 = Some Pending /\
  promise_state (bridge_replies failing_android_host 2 0 w1) 1 =
    Some (Rejected (JStr "E_NETWORK")).
Proof. split; vm_compute; reflexivity. Qed.

Example shown_forwards_sample_record :
  call_shown android_host
    [("id", JNum 1%float); ("callback", JStr "url"); ("shown", JShown (JObj sample_record))]
    loaded_world =
  (Normal JUndefined,
   set_calls (fun _ => [Native_experienceShown (JObj sample_record)]) loaded_world).
Proof. reflexivity. Qed.

Example chained_configuration :
  calls (snd ((let* self := withLogLevel default_export VERBOSE in
               let* self := withTrackingId self "abc" in
               start android_host self) loaded_world)) =
  [Native_init (Some "abc") "VERBOSE"].
Proof. reflexivity. Qed.

(** * The properties of the specification *)

(** ** Configuration and initialisation *)

(** C5: on a supported platform, for each of the six log levels,
    [withLogLevel(level)] followed by [start()] passes exactly that level
    as the log-level argument of the native [init]. *)
Theorem withLogLevel_start_forwards_level host this o logLevel w :
  Platform_OS host <> "ios" ->
  objects w !! this = Some o ->
  calls (snd ((let* self := withLogLevel this logLevel in start host self) w)) =
    calls w ++ [Native_init (_trackingId o) (LogLevel_literal logLevel)] /\
  In (LogLevel_literal logLevel) ["SILENT"; "ERROR"; "WARN"; "INFO"; "DEBUG"; "VERBOSE"].
Proof.
  intros Hos Hthis. split; [|destruct logLevel; cbn; tauto].
  unfold withLogLevel, this_assign, bind. rewrite Hthis. cbn.
  rewrite (start_calls_init host this (mkQubitSDK (_trackingId o) (LogLevel_literal logLevel)))
    by (exact Hos || apply lookup_insert_eq).
  reflexivity.
Qed.

Lemma withLogLevel_start_forwards_level_witness :
  Platform_OS android_host <> "ios" /\
  objects loaded_world !! default_export = Some (mkQubitSDK None "WARN") /\
  calls (snd ((let* self := withLogLevel default_export DEBUG in start android_host self)
                loaded_world)) =
    calls loaded_world ++ [Native_init None "DEBUG"] /\
  In "DEBUG" ["SILENT"; "ERROR"; "WARN"; "INFO"; "DEBUG"; "VERBOSE"].
Proof.
  split; [discriminate|]. split; [reflexivity|].
  apply (withLogLevel_start_forwards_level android_host default_export
           (mkQubitSDK None "WARN") DEBUG loaded_world); [discriminate | reflexivity].
Defined.

(** C6: on a supported platform, [withTrackingId("abc").start()] invokes the
    native [init] exactly once, with the identifier and the current log
    level; [withTrackingId] and [withLogLevel] return normally, return the
    instance they were called on, and change nothing but their one field. *)
Theorem withTrackingId_start_calls_init_once host this o trackingId w :
  Platform_OS host <> "ios" ->
  objects w !! this = Some o ->
  withTrackingId this trackingId w =
    (Normal this, set_objects (insert this (mkQubitSDK (Some trackingId) (_logLevel o))) w) /\
  (forall logLevel,
     withLogLevel this logLevel w =
       (Normal this,
        set_objects (insert this (mkQubitSDK (_trackingId o) (LogLevel_literal logLevel))) w)) /\
  calls (snd ((let* self := withTrackingId this trackingId in start host self) w)) =
    calls w ++ [Native_init (Some trackingId) (_logLevel o)].
Proof.
  intros Hos Hthis.
  split; [unfold withTrackingId; unfold_runtime; now rewrite Hthis|].
  split; [intros l; unfold withLogLevel; unfold_runtime; now rewrite Hthis|].
  unfold withTrackingId, this_assign, bind. rewrite Hthis. cbn.
  rewrite (start_calls_init host this (mkQubitSDK (Some trackingId) (_logLevel o)))
    by (exact Hos || apply lookup_insert_eq).
  reflexivity.
Qed.

Lemma withTrackingId_start_calls_init_once_witness :
  Platform_OS android_host <> "ios" /\
  objects loaded_world !! default_export = Some (mkQubitSDK None "WARN") /\
  withTrackingId default_export "abc" loaded_world =
    (Normal default_export,
     set_objects (insert default_export (mkQubitSDK (Some "abc") "WARN")) loaded_world) /\
  (forall logLevel,
     withLogLevel default_export logLevel loaded_world =
       (Normal default_export,
        set_objects (insert default_export (mkQubitSDK None (LogLevel_literal logLevel)))
          loaded_world)) /\
  calls (snd ((let* self := withTrackingId default_export "abc" in start android_host self)
                loaded_world)) =
    calls loaded_world ++ [Native_init (Some "abc") "WARN"].
Proof.
  split; [discriminate|]. split; [reflexivity|].
  apply (withTrackingId_start_calls_init_once android_host default_export
           (mkQubitSDK None "WARN") "abc" loaded_world); [discriminate | reflexivity].
Defined.

(** C10: on a supported platform, whatever else happened since the instance
    was created, [start()] passes [null] to the native [init] as long as
    [withTrackingId] was not called, together with ['WARN'] as long as
    [withLogLevel] was not called either; and any string given to
    [withTrackingId], the empty one included, is passed as it is. *)
Theorem start_forwards_trackingId_unchecked host acts w :
  Platform_OS host <> "ios" ->
  exists this o,
    fst (new_QubitSDK w) = Normal this /\
    let w1 := run host acts (snd (new_QubitSDK w)) in
    objects w1 !! this = Some o /\
    (forallb (fun a => negb (is_withTrackingId this a)) acts = true ->
     _trackingId o = None) /\
    (forallb (fun a => negb (is_withLogLevel this a)) acts = true ->
     _logLevel o = "WARN") /\
    calls (snd (start host this w1)) =
      calls w1 ++ [Native_init (_trackingId o) (_logLevel o)] /\
    forall trackingId,
      calls (snd ((let* self := withTrackingId this trackingId in start host self) w1)) =
        calls w1 ++ [Native_init (Some trackingId) (_logLevel o)].
Proof.
  intros Hos.
  destruct (run_instance host (next_loc w) acts (mkQubitSDK None "WARN")
              (snd (new_QubitSDK w))) as (o & Hthis & Ht & Hl).
  { cbn. apply lookup_insert_eq. }
  exists (next_loc w), o. split; [reflexivity|]. cbn zeta.
  split; [exact Hthis|]. split; [exact Ht|]. split; [exact Hl|].
  split; [now apply start_calls_init|].
  intros trackingId. unfold withTrackingId, this_assign, bind. rewrite Hthis. cbn.
  rewrite (start_calls_init host (next_loc w) (mkQubitSDK (Some trackingId) (_logLevel o)))
    by (exact Hos || apply lookup_insert_eq).
  reflexivity.
Qed.

Lemma start_forwards_trackingId_unchecked_witness :
  Platform_OS android_host <> "ios" /\
  exists this o,
    fst (new_QubitSDK empty_world) = Normal this /\
    let w1 := run android_host [Do_enable default_export true] (snd (new_QubitSDK empty_world)) in
    objects w1 !! this = Some o /\
    (forallb (fun a => negb (is_withTrackingId this a)) [Do_enable default_export true] = true ->
     _trackingId o = None) /\
    (forallb (fun a => negb (is_withLogLevel this a)) [Do_enable default_export true] = true ->
     _logLevel o = "WARN") /\
    calls (snd (start android_host this w1)) =
      calls w1 ++ [Native_init (_trackingId o) (_logLevel o)] /\
    forall trackingId,
      calls (snd ((let* self := withTrackingId this trackingId in start android_host self) w1)) =
        calls w1 ++ [Native_init (Some trackingId) (_logLevel o)].
Proof.
  split; [discriminate|].
  apply (start_forwards_trackingId_unchecked android_host [Do_enable default_export true]
           empty_world).
  discriminate.
Defined.

(** ** The unsupported platform *)

(** C7: on iOS, [start], [sendEvent] and [enable] return without invoking the
    native module and without any other effect. *)
Theorem unsupported_start_sendEvent_enable_do_nothing host this eventType eventBody value w :
  Platform_OS host = "ios" ->
  start host this w = (Normal tt, w) /\
  sendEvent host this eventType eventBody w = (Normal tt, w) /\
  enable host this value w = (Normal tt, w).
Proof.
  intros Hos. unfold start, sendEvent, enable. rewrite (is_ios_true host Hos). auto.
Qed.

Lemma unsupported_start_sendEvent_enable_do_nothing_witness :
  Platform_OS ios_host = "ios" /\
  start ios_host default_export loaded_world = (Normal tt, loaded_world) /\
  sendEvent ios_host default_export "ecView" (JObj [("type", JStr "home")]) loaded_world =
    (Normal tt, loaded_world) /\
  enable ios_host default_export true loaded_world = (Normal tt, loaded_world).
Proof.
  split; [reflexivity|].
  apply (unsupported_start_sendEvent_enable_do_nothing ios_host default_export "ecView"
           (JObj [("type", JStr "home")]) true loaded_world).
  reflexivity.
Defined.

(** C8: on iOS, [getTrackingId], [getDeviceId] and [getLookupData] each
    return a promise that is rejected already, with [undefined] as the reason,
    that nothing later fulfils, and they do not invoke the native module. *)
Theorem unsupported_accessors_reject host this w :
  Platform_OS host = "ios" ->
  (rejects_immediately host JUndefined (getTrackingId host this) w /\
   calls (snd (getTrackingId host this w)) = calls w) /\
  (rejects_immediately host JUndefined (getDeviceId host this) w /\
   calls (snd (getDeviceId host this w)) = calls w) /\
  (rejects_immediately host JUndefined (getLookupData host this) w /\
   calls (snd (getLookupData host this w)) = calls w).
Proof.
  intros Hos. unfold getTrackingId, getDeviceId, getLookupData.
  rewrite (is_ios_true host Hos).
  repeat split; try apply Promise_reject_rejects_immediately.
Qed.

Lemma unsupported_accessors_reject_witness :
  Platform_OS ios_host = "ios" /\
  (rejects_immediately ios_host JUndefined (getTrackingId ios_host default_export) loaded_world /\
   calls (snd (getTrackingId ios_host default_export loaded_world)) = calls loaded_world) /\
  (rejects_immediately ios_host JUndefined (getDeviceId ios_host default_export) loaded_world /\
   calls (snd (getDeviceId ios_host default_export loaded_world)) = calls loaded_world) /\
  (rejects_immediately ios_host JUndefined (getLookupData ios_host default_export) loaded_world /\
   calls (snd (getLookupData ios_host default_export loaded_world)) = calls loaded_world).
Proof.
  split; [reflexivity|].
  apply (unsupported_accessors_reject ios_host default_export loaded_world). reflexivity.
Defined.

(** C2: on iOS, for all arguments, [getExperiences] returns a promise that is
    rejected by the time the call returns and that nothing later fulfils;
    so does [getExperiences([], false, 0, false, false, false, false)]. *)
Theorem unsupported_getExperiences_rejects host this ids isconstiationSet constiation
    isPreviewSet preview isIgnoreSegmentsSet ignoreSegments w :
  Platform_OS host = "ios" ->
  rejects_immediately host JUndefined
    (getExperiences host this ids isconstiationSet constiation isPreviewSet preview
       isIgnoreSegmentsSet ignoreSegments) w.
Proof.
  intros Hos. now apply getExperiences_unsupported.
Qed.

Lemma unsupported_getExperiences_rejects_witness :
  Platform_OS ios_host = "ios" /\
  rejects_immediately ios_host JUndefined
    (getExperiences ios_host default_export [] false 0%float false false false false)
    loaded_world.
Proof.
  split; [reflexivity|].
  apply (unsupported_getExperiences_rejects ios_host default_export [] false 0%float
           false false false false loaded_world).
  reflexivity.
Defined.

(** C1: on iOS, the rejection in [getExperiences] does not end the call: when
    it returns, the promise is rejected and the native [getExperiences] has
    been invoked all the same, before any reaction is scheduled; the other
    accessors return early and invoke nothing. *)
Theorem unsupported_getExperiences_still_calls_native host this ids isconstiationSet constiation
    isPreviewSet preview isIgnoreSegmentsSet ignoreSegments w :
  Platform_OS host = "ios" ->
  (exists p w1,
     getExperiences host this ids isconstiationSet constiation isPreviewSet preview
       isIgnoreSegmentsSet ignoreSegments w = (Normal p, w1) /\
     promise_state w1 p = Some (Rejected JUndefined) /\
     calls w1 = calls w ++ [Native_getExperiences ids isconstiationSet constiation isPreviewSet
                              preview isIgnoreSegmentsSet ignoreSegments] /\
     microtasks w1 = microtasks w) /\
  calls (snd (getTrackingId host this w)) = calls w /\
  calls (snd (getDeviceId host this w)) = calls w /\
  calls (snd (getLookupData host this w)) = calls w.
Proof.
  intros Hos. split.
  - destruct (getExperiences_unsupported host Hos this ids isconstiationSet constiation
                isPreviewSet preview isIgnoreSegmentsSet ignoreSegments w)
      as ((p & w1 & Hrun & Hst & _) & Hcalls & Hq).
    rewrite Hrun in Hcalls, Hq. now exists p, w1.
  - unfold getTrackingId, getDeviceId, getLookupData.
    rewrite (is_ios_true host Hos). auto.
Qed.

Lemma unsupported_getExperiences_still_calls_native_witness :
  Platform_OS ios_host = "ios" /\
  (exists p w1,
     getExperiences ios_host default_export [] false 0%float false false false false
       loaded_world = (Normal p, w1) /\
     promise_state w1 p = Some (Rejected JUndefined) /\
     calls w1 = calls loaded_world ++
                  [Native_getExperiences [] false 0%float false false false false] /\
     microtasks w1 = microtasks loaded_world) /\
  calls (snd (getTrackingId ios_host default_export loaded_world)) = calls loaded_world /\
  calls (snd (getDeviceId ios_host default_export loaded_world)) = calls loaded_world /\
  calls (snd (getLookupData ios_host default_export loaded_world)) = calls loaded_world.
Proof.
  split; [reflexivity|].
  apply (unsupported_getExperiences_still_calls_native ios_host default_export [] false
           0%float false false false false loaded_world).
  reflexivity.
Defined.

(** ** A supported platform *)

(** C4: on a supported platform, for all arguments, [getExperiences] invokes
    the native [getExperiences] once, with its seven arguments in the same
    positions and unchanged; so for [([1,2], true, 5, false, false, true,
    true)]. *)
Theorem getExperiences_forwards_arguments host this ids isconstiationSet constiation
    isPreviewSet preview isIgnoreSegmentsSet ignoreSegments w :
  Platform_OS host <> "ios" ->
  calls (snd (getExperiences host this ids isconstiationSet constiation isPreviewSet preview
                isIgnoreSegmentsSet ignoreSegments w)) =
    calls w ++ [Native_getExperiences ids isconstiationSet constiation isPreviewSet preview
                  isIgnoreSegmentsSet ignoreSegments].
Proof.
  intros _.
  destruct (NativeModules_QubitSDK host (calls w)
              (Native_getExperiences ids isconstiationSet constiation isPreviewSet preview
                 isIgnoreSegmentsSet ignoreSegments)) as [x|o] eqn:E.
  - now rewrite (getExperiences_throws host _ _ _ _ _ _ _ _ _ _ E).
  - now rewrite (getExperiences_returns host _ _ _ _ _ _ _ _ _ _ E).
Qed.

Lemma getExperiences_forwards_arguments_witness :
  Platform_OS android_host <> "ios" /\
  calls (snd (getExperiences android_host default_export [1%float; 2%float] true 5%float
                false false true true loaded_world)) =
    calls loaded_world ++
      [Native_getExperiences [1%float; 2%float] true 5%float false false true true].
Proof.
  split; [discriminate|].
  apply (getExperiences_forwards_arguments android_host default_export [1%float; 2%float]
           true 5%float false false true true loaded_world).
  discriminate.
Defined.

(** C3: when the native [getExperiences] answers with a sequence of records,
    the sequence the returned promise is fulfilled with (on iOS it is
    rejected instead) has the same length and order, and its elements are the
    native records, each with a [shown] function that passes the original
    record to the native [experienceShown] and returns [undefined]. *)
Theorem getExperiences_resolves_decorated host this ids isconstiationSet constiation
    isPreviewSet preview isIgnoreSegmentsSet ignoreSegments w recs fuel :
  microtasks w = [] ->
  NativeModules_QubitSDK host (calls w)
    (Native_getExperiences ids isconstiationSet constiation isPreviewSet preview
       isIgnoreSegmentsSet ignoreSegments) = Returns (Fulfilled (JArr (map JObj recs))) ->
  2 <= fuel ->
  exists p ds,
    fst (getExperiences host this ids isconstiationSet constiation isPreviewSet preview
           isIgnoreSegmentsSet ignoreSegments w) = Normal p /\
    Forall2 (decoration_of host) recs ds /\
    promise_state
      (bridge_replies host fuel (length (calls w))
         (snd (getExperiences host this ids isconstiationSet constiation isPreviewSet preview
                 isIgnoreSegmentsSet ignoreSegments w))) p =
      Some (if is_ios host then Rejected JUndefined else Fulfilled (JArr (map JObj ds))).
Proof.
  intros Hq E Hfuel.
  exists (next_loc w), (map (fun rec => set_prop "shown" (JShown (JObj rec)) rec) recs).
  split; [now rewrite (getExperiences_returns host _ _ _ _ _ _ _ _ _ _ E)|].
  split.
  { clear E. induction recs as [|rec recs IH]; cbn; constructor;
      [apply decorate_record | exact IH]. }
  destruct (is_ios host) eqn:Hos.
  - apply String.eqb_eq in Hos.
    destruct (getExperiences_unsupported host Hos this ids isconstiationSet constiation
                isPreviewSet preview isIgnoreSegmentsSet ignoreSegments w)
      as ((p & w1 & Hrun & _ & Hever) & _).
    assert (Hp : p = next_loc w).
    { rewrite (getExperiences_returns host _ _ _ _ _ _ _ _ _ _ E) in Hrun. congruence. }
    rewrite Hrun, <- Hp. exact (Hever [Do_reply fuel (length (calls w))]).
  - apply String.eqb_neq in Hos.
    destruct (getExperiences_fulfilled_array host this _ _ _ _ _ _ _ w _ fuel Hos Hq E Hfuel)
      as (-> & _). now rewrite !map_map.
Qed.

Lemma getExperiences_resolves_decorated_witness :
  microtasks loaded_world = [] /\
  NativeModules_QubitSDK android_host (calls loaded_world)
    (Native_getExperiences [] false 0%float false false false false) =
    Returns (Fulfilled (JArr (map JObj [sample_record]))) /\
  2 <= 2 /\
  exists p ds,
    fst (getExperiences android_host default_export [] false 0%float false false false false
           loaded_world) = Normal p /\
    Forall2 (decoration_of android_host) [sample_record] ds /\
    promise_state
      (bridge_replies android_host 2 (length (calls loaded_world))
         (snd (getExperiences android_host default_export [] false 0%float false false false
                 false loaded_world))) p =
      Some (if is_ios android_host then Rejected JUndefined
            else Fulfilled (JArr (map JObj ds))).
Proof.
  split; [reflexivity|]. split; [reflexivity|]. split; [apply le_n|].
  apply (getExperiences_resolves_decorated android_host default_export [] false 0%float
           false false false false loaded_world [sample_record] 2);
    [reflexivity | reflexivity | apply le_n].
Defined.

(** C9: on a supported platform, a failure of the native module in a promise
    call rejects the promise the facade returned with that very value, and
    the native module is not invoked again: for [getExperiences], whether the
    native promise is rejected or the call throws, and for the three other
    accessors. *)
Theorem native_failure_propagates_unchanged host this r fuel w :
  Platform_OS host <> "ios" ->
  (forall ids isconstiationSet constiation isPreviewSet preview isIgnoreSegmentsSet
          ignoreSegments,
     (microtasks w = [] -> 2 <= fuel ->
      propagates_failure host
        (Native_getExperiences ids isconstiationSet constiation isPreviewSet preview
           isIgnoreSegmentsSet ignoreSegments)
        (getExperiences host this ids isconstiationSet constiation isPreviewSet preview
           isIgnoreSegmentsSet ignoreSegments) r fuel w) /\
     (NativeModules_QubitSDK host (calls w)
        (Native_getExperiences ids isconstiationSet constiation isPreviewSet preview
           isIgnoreSegmentsSet ignoreSegments) = Throws r ->
      exists p w1,
        getExperiences host this ids isconstiationSet constiation isPreviewSet preview
          isIgnoreSegmentsSet ignoreSegments w = (Normal p, w1) /\
        promise_state w1 p = Some (Rejected r))) /\
  propagates_failure host Native_getTrackingId (getTrackingId host this) r fuel w /\
  propagates_failure host Native_getDeviceId (getDeviceId host this) r fuel w /\
  propagates_failure host Native_getLookupData (getLookupData host this) r fuel w.
Proof.
  intros Hos. split; [intros ids a v b c d e; split|].
  - intros Hq Hfuel E. exists (next_loc w).
    split; [now rewrite (getExperiences_returns host _ _ _ _ _ _ _ _ _ _ E)|].
    destruct (getExperiences_rejected host this _ _ _ _ _ _ _ w _ fuel Hos Hq E Hfuel)
      as (Hst & _ & Hcalls).
    split; [exact Hst | intros _; exact Hcalls].
  - intros E. eexists _, _.
    rewrite (getExperiences_throws host _ _ _ _ _ _ _ _ _ _ E), (is_ios_false host Hos).
    split; [reflexivity|]. unfold promise_state. cbn. now rewrite lookup_insert_eq.
  - unfold getTrackingId, getDeviceId, getLookupData. rewrite (is_ios_false host Hos).
    repeat split; apply call_native_promise_propagates_failure.
Qed.

Lemma native_failure_propagates_unchanged_witness :
  Platform_OS failing_android_host <> "ios" /\
  (forall ids isconstiationSet constiation isPreviewSet preview isIgnoreSegmentsSet
          ignoreSegments,
     (microtasks loaded_world = [] -> 2 <= 2 ->
      propagates_failure failing_android_host
        (Native_getExperiences ids isconstiationSet constiation isPreviewSet preview
           isIgnoreSegmentsSet ignoreSegments)
        (getExperiences failing_android_host default_export ids isconstiationSet constiation
           isPreviewSet preview isIgnoreSegmentsSet ignoreSegments)
        (JStr "E_NETWORK") 2 loaded_world) /\
     (NativeModules_QubitSDK failing_android_host (calls loaded_world)
        (Native_getExperiences ids isconstiationSet constiation isPreviewSet preview
           isIgnoreSegmentsSet ignoreSegments) = Throws (JStr "E_NETWORK") ->
      exists p w1,
        getExperiences failing_android_host default_export ids isconstiationSet constiation
          isPreviewSet preview isIgnoreSegmentsSet ignoreSegments loaded_world =
          (Normal p, w1) /\
        promise_state w1 p = Some (Rejected (JStr "E_NETWORK")))) /\
  propagates_failure failing_android_host Native_getTrackingId
    (getTrackingId failing_android_host default_export) (JStr "E_NETWORK") 2 loaded_world /\
  propagates_failure failing_android_host Native_getDeviceId
    (getDeviceId failing_android_host default_export) (JStr "E_NETWORK") 2 loaded_world /\
  propagates_failure failing_android_host Native_getLookupData
    (getLookupData failing_android_host default_export) (JStr "E_NETWORK") 2 loaded_world.
Proof.
  split; [discriminate|].
  apply (native_failure_propagates_unchanged failing_android_host default_export
           (JStr "E_NETWORK") 2 loaded_world).
  discriminate.
Defined.

(** * Further properties *)

(** ** What one call does to the trace *)

Section Trace.

Variable host : Host.

Lemma call_native_void_run c w :
  call_native_void host c w =
  (match NativeModules_QubitSDK host (calls w) c with
   | Throws e => Throw e
   | Returns _ => Normal tt
   end,
   set_calls (fun cs => cs ++ [c]) w).
Proof.
  unfold call_native_void, call_native, bind, ret.
  now destruct (NativeModules_QubitSDK host (calls w) c).
Qed.

Lemma call_native_promise_calls c w :
  calls (snd (call_native_promise host c w)) = calls w ++ [c].
Proof.
  unfold call_native_promise. unfold_runtime. cbn -[insert lookup delete].
  now destruct (NativeModules_QubitSDK host (calls w) c).
Qed.

Lemma getExperiences_calls this ids a v b c d e w :
  calls (snd (getExperiences host this ids a v b c d e w)) =
    calls w ++ [Native_getExperiences ids a v b c d e].
Proof.
  destruct (NativeModules_QubitSDK host (calls w) (Native_getExperiences ids a v b c d e))
    as [x|o] eqn:E.
  - now rewrite (getExperiences_throws host _ _ _ _ _ _ _ _ _ _ E).
  - now rewrite (getExperiences_returns host _ _ _ _ _ _ _ _ _ _ E).
Qed.

End Trace.

(** ** The methods without a result *)

(** X1: on a supported platform [sendEvent] invokes the native [sendEvent]
    once with its two arguments as they are and does nothing else; it
    returns [undefined] when the native method returns, and an exception of
    the native method goes on to the caller. *)
Theorem sendEvent_forwards host this eventType eventBody w :
  Platform_OS host <> "ios" ->
  sendEvent host this eventType eventBody w =
  (match NativeModules_QubitSDK host (calls w) (Native_sendEvent eventType eventBody) with
   | Throws e => Throw e
   | Returns _ => Normal tt
   end,
   set_calls (fun cs => cs ++ [Native_sendEvent eventType eventBody]) w).
Proof.
  intros Hos. unfold sendEvent. rewrite (is_ios_false host Hos).
  apply call_native_void_run.
Qed.

Lemma sendEvent_forwards_witness :
  Platform_OS android_host <> "ios" /\
  sendEvent android_host default_export "ecView" (JObj [("type", JStr "home")]) loaded_world =
  (match NativeModules_QubitSDK android_host (calls loaded_world)
           (Native_sendEvent "ecView" (JObj [("type", JStr "home")])) with
   | Throws e => Throw e
   | Returns _ => Normal tt
   end,
   set_calls (fun cs => cs ++ [Native_sendEvent "ecView" (JObj [("type", JStr "home")])])
     loaded_world).
Proof.
  split; [discriminate|].
  apply (sendEvent_forwards android_host default_export "ecView"
           (JObj [("type", JStr "home")]) loaded_world).
  discriminate.
Defined.

(** X2: on a supported platform [enable] invokes the native [enableTracker]
    once with the same boolean and does nothing else; an exception of the
    native method goes on to the caller. *)
Theorem enable_forwards host this value w :
  Platform_OS host <> "ios" ->
  enable host this value w =
  (match NativeModules_QubitSDK host (calls w) (Native_enableTracker value) with
   | Throws e => Throw e
   | Returns _ => Normal tt
   end,
   set_calls (fun cs => cs ++ [Native_enableTracker value]) w).
Proof.
  intros Hos. unfold enable. rewrite (is_ios_false host Hos).
  apply call_native_void_run.
Qed.

Lemma enable_forwards_witness :
  Platform_OS android_host <> "ios" /\
  enable android_host default_export false loaded_world =
  (match NativeModules_QubitSDK android_host (calls loaded_world)
           (Native_enableTracker false) with
   | Throws e => Throw e
   | Returns _ => Normal tt
   end,
   set_calls (fun cs => cs ++ [Native_enableTracker false]) loaded_world).
Proof.
  split; [discriminate|].
  apply (enable_forwards android_host default_export false loaded_world).
  discriminate.
Defined.

(** X3: on a supported platform [start] on an instance invokes the native
    [init] once and changes nothing else, the configuration included; an
    exception of [init] is not caught, and a second [start] invokes [init]
    again. *)
Theorem start_is_not_guarded host this o w :
  Platform_OS host <> "ios" ->
  objects w !! this = Some o ->
  start host this w =
    (match NativeModules_QubitSDK host (calls w)
             (Native_init (_trackingId o) (_logLevel o)) with
     | Throws e => Throw e
     | Returns _ => Normal tt
     end,
     set_calls (fun cs => cs ++ [Native_init (_trackingId o) (_logLevel o)]) w) /\
  calls (snd (start host this (snd (start host this w)))) =
    calls w ++ [Native_init (_trackingId o) (_logLevel o);
                Native_init (_trackingId o) (_logLevel o)].
Proof.
  intros Hos Hthis.
  assert (Hrun : forall w', objects w' !! this = Some o ->
    start host this w' =
    (match NativeModules_QubitSDK host (calls w')
             (Native_init (_trackingId o) (_logLevel o)) with
     | Throws e => Throw e
     | Returns _ => Normal tt
     end,
     set_calls (fun cs => cs ++ [Native_init (_trackingId o) (_logLevel o)]) w')).
  { intros w' H'. unfold start. rewrite (is_ios_false host Hos).
    unfold this_field, bind. rewrite H'. cbn -[insert lookup delete]. rewrite H'.
    apply call_native_void_run. }
  split; [now apply Hrun|].
  rewrite (Hrun w Hthis). cbn -[insert lookup delete].
  rewrite Hrun by exact Hthis. cbn -[insert lookup delete].
  now rewrite <- app_assoc.
Qed.

Lemma start_is_not_guarded_witness :
  Platform_OS android_host <> "ios" /\
  objects loaded_world !! default_export = Some (mkQubitSDK None "WARN") /\
  start android_host default_export loaded_world =
    (match NativeModules_QubitSDK android_host (calls loaded_world)
             (Native_init None "WARN") with
     | Throws e => Throw e
     | Returns _ => Normal tt
     end,
     set_calls (fun cs => cs ++ [Native_init None "WARN"]) loaded_world) /\
  calls (snd (start android_host default_export
                (snd (start android_host default_export loaded_world)))) =
    calls loaded_world ++ [Native_init None "WARN"; Native_init None "WARN"].
Proof.
  split; [discriminate|]. split; [reflexivity|].
  apply (start_is_not_guarded android_host default_export (mkQubitSDK None "WARN")
           loaded_world); [discriminate | reflexivity].
Defined.

(** ** The accessors when the native side answers *)

Section Answers.

Variable host : Host.

Lemma call_native_promise_mirrors_native c fuel w :
  mirrors_native host c (call_native_promise host c) fuel w.
Proof.
  intros o E. exists (next_loc w).
  unfold call_native_promise. unfold_runtime. cbn -[insert lookup delete].
  rewrite E. cbn -[insert lookup delete]. eexists. split; [reflexivity|].
  unfold promise_state, bridge_replies. cbn -[insert lookup delete]. heap.
  split; [reflexivity|].
  destruct o as [|v|r]; cbn -[insert lookup delete].
  - now heap.
  - unfold settle. exec.
    apply drain_keeps; [discriminate|].
    split; [|cbn; lia]. unfold promise_state. cbn -[insert lookup delete]. now heap.
  - unfold settle. exec.
    apply drain_keeps; [discriminate|].
    split; [|cbn; lia]. unfold promise_state. cbn -[insert lookup delete]. now heap.
Qed.

Lemma map_decorated_without_map v w :
  has_map v = false -> map_decorated host v w = (Throw TypeError, w).
Proof.
  destruct v; cbn; try reflexivity; try discriminate.
  destruct (get_prop "map" props) as [[]|]; try reflexivity; discriminate.
Qed.

(** A value without [map] from the native side: the [then] handler throws,
    and the [catch] handler rejects the returned promise with the error. *)
Lemma getExperiences_fulfilled_unmappable this ids a v b c d e w x fuel :
  Platform_OS host <> "ios" ->
  microtasks w = [] ->
  NativeModules_QubitSDK host (calls w) (Native_getExperiences ids a v b c d e) =
    Returns (Fulfilled x) ->
  has_map x = false ->
  2 <= fuel ->
  let w2 := bridge_replies host fuel (length (calls w))
              (snd (getExperiences host this ids a v b c d e w)) in
  promise_state w2 (next_loc w) = Some (Rejected TypeError) /\
  calls w2 = calls w ++ [Native_getExperiences ids a v b c d e].
Proof.
  intros Hos Hq E Hmap Hfuel.
  rewrite (getExperiences_returns host _ _ _ _ _ _ _ _ _ _ E), (is_ios_false host Hos).
  destruct fuel as [|[|fuel]]; try lia.
  unfold bridge_replies, promise_state. cbn -[insert lookup delete]. heap. rewrite Hq.
  unfold run_job, run_callback. unfold_runtime. exec.
  rewrite (map_decorated_without_map x _ Hmap). exec.
  rewrite drain_nothing by reflexivity. exec. auto.
Qed.

End Answers.

(** X4: on a supported platform the promise that [getTrackingId],
    [getDeviceId] and [getLookupData] return is the promise of the native
    call: pending when the method returns, then fulfilled with the value or
    rejected with the reason the native side gives, and pending for as long
    as the native side gives none. *)
Theorem accessors_mirror_native host this fuel w :
  Platform_OS host <> "ios" ->
  mirrors_native host Native_getTrackingId (getTrackingId host this) fuel w /\
  mirrors_native host Native_getDeviceId (getDeviceId host this) fuel w /\
  mirrors_native host Native_getLookupData (getLookupData host this) fuel w.
Proof.
  intros Hos. unfold getTrackingId, getDeviceId, getLookupData.
  rewrite (is_ios_false host Hos).
  repeat split; apply call_native_promise_mirrors_native.
Qed.

Lemma accessors_mirror_native_witness :
  Platform_OS (mkHost "android" (constant_native (Fulfilled (JStr "abc")))) <> "ios" /\
  mirrors_native (mkHost "android" (constant_native (Fulfilled (JStr "abc"))))
    Native_getTrackingId
    (getTrackingId (mkHost "android" (constant_native (Fulfilled (JStr "abc")))) default_export)
    0 loaded_world /\
  mirrors_native (mkHost "android" (constant_native (Fulfilled (JStr "abc"))))
    Native_getDeviceId
    (getDeviceId (mkHost "android" (constant_native (Fulfilled (JStr "abc")))) default_export)
    0 loaded_world /\
  mirrors_native (mkHost "android" (constant_native (Fulfilled (JStr "abc"))))
    Native_getLookupData
    (getLookupData (mkHost "android" (constant_native (Fulfilled (JStr "abc")))) default_export)
    0 loaded_world.
Proof.
  split; [discriminate|].
  apply (accessors_mirror_native (mkHost "android" (constant_native (Fulfilled (JStr "abc"))))
           default_export 0 loaded_world).
  discriminate.
Defined.

(** X5: on a supported platform, when the native [getExperiences] returns,
    the promise of the facade is pending and nothing is scheduled; if the
    native side never settles its promise, the promise of the facade is
    still pending after the bridge and the microtasks have run. *)
Theorem getExperiences_pending_until_answered host this ids isconstiationSet constiation
    isPreviewSet preview isIgnoreSegmentsSet ignoreSegments w o :
  Platform_OS host <> "ios" ->
  NativeModules_QubitSDK host (calls w)
    (Native_getExperiences ids isconstiationSet constiation isPreviewSet preview
       isIgnoreSegmentsSet ignoreSegments) = Returns o ->
  exists p w1,
    getExperiences host this ids isconstiationSet constiation isPreviewSet preview
      isIgnoreSegmentsSet ignoreSegments w = (Normal p, w1) /\
    promise_state w1 p = Some Pending /\
    microtasks w1 = microtasks w /\
    (o = Pending -> microtasks w = [] ->
     forall fuel fuel',
       promise_state (drain host fuel' (bridge_replies host fuel (length (calls w)) w1)) p =
         Some Pending).
Proof.
  intros Hos E.
  rewrite (getExperiences_returns host _ _ _ _ _ _ _ _ _ _ E), (is_ios_false host Hos).
  eexists _, _. split; [reflexivity|].
  split; [unfold promise_state; cbn -[insert lookup delete]; now heap|].
  split; [reflexivity|].
  intros -> Hq fuel fuel'. unfold bridge_replies. cbn -[insert lookup delete]. heap.
  rewrite drain_nothing by exact Hq.
  unfold promise_state. cbn -[insert lookup delete]. now heap.
Qed.

Lemma getExperiences_pending_until_answered_witness :
  Platform_OS (mkHost "android" (constant_native Pending)) <> "ios" /\
  NativeModules_QubitSDK (mkHost "android" (constant_native Pending)) (calls loaded_world)
    (Native_getExperiences [] false 0%float false false false false) = Returns Pending /\
  exists p w1,
    getExperiences (mkHost "android" (constant_native Pending)) default_export [] false
      0%float false false false false loaded_world = (Normal p, w1) /\
    promise_state w1 p = Some Pending /\
    microtasks w1 = microtasks loaded_world /\
    (Pending = Pending -> microtasks loaded_world = [] ->
     forall fuel fuel',
       promise_state
         (drain (mkHost "android" (constant_native Pending)) fuel'
            (bridge_replies (mkHost "android" (constant_native Pending)) fuel
               (length (calls loaded_world)) w1)) p =
         Some Pending).
Proof.
  split; [discriminate|]. split; [reflexivity|].
  apply (getExperiences_pending_until_answered (mkHost "android" (constant_native Pending))
           default_export [] false 0%float false false false false loaded_world Pending);
    [discriminate | reflexivity].
Defined.

(** X6: on a supported platform, when the native [getExperiences] answers
    with a value that has no [map] ([null], a number, a string, a plain
    object), the promise of the facade is rejected with the [TypeError] of the
    failed call of [map], and the native module is not invoked again. *)
Theorem getExperiences_rejects_unmappable host this ids isconstiationSet constiation
    isPreviewSet preview isIgnoreSegmentsSet ignoreSegments w x fuel :
  Platform_OS host <> "ios" ->
  microtasks w = [] ->
  NativeModules_QubitSDK host (calls w)
    (Native_getExperiences ids isconstiationSet constiation isPreviewSet preview
       isIgnoreSegmentsSet ignoreSegments) = Returns (Fulfilled x) ->
  has_map x = false ->
  2 <= fuel ->
  exists p,
    fst (getExperiences host this ids isconstiationSet constiation isPreviewSet preview
           isIgnoreSegmentsSet ignoreSegments w) = Normal p /\
    let w2 := bridge_replies host fuel (length (calls w))
                (snd (getExperiences host this ids isconstiationSet constiation isPreviewSet
                        preview isIgnoreSegmentsSet ignoreSegments w)) in
    promise_state w2 p = Some (Rejected TypeError) /\
    calls w2 = calls w ++ [Native_getExperiences ids isconstiationSet constiation
                             isPreviewSet preview isIgnoreSegmentsSet ignoreSegments].
Proof.
  intros Hos Hq E Hmap Hfuel. exists (next_loc w).
  split; [now rewrite (getExperiences_returns host _ _ _ _ _ _ _ _ _ _ E)|].
  exact (getExperiences_fulfilled_unmappable host this _ _ _ _ _ _ _ w x fuel Hos Hq E Hmap
           Hfuel).
Qed.

Lemma getExperiences_rejects_unmappable_witness :
  Platform_OS (mkHost "android" (constant_native (Fulfilled JNull))) <> "ios" /\
  microtasks loaded_world = [] /\
  NativeModules_QubitSDK (mkHost "android" (constant_native (Fulfilled JNull)))
    (calls loaded_world)
    (Native_getExperiences [] false 0%float false false false false) =
    Returns (Fulfilled JNull) /\
  has_map JNull = false /\
  2 <= 2 /\
  exists p,
    fst (getExperiences (mkHost "android" (constant_native (Fulfilled JNull))) default_export
           [] false 0%float false false false false loaded_world) = Normal p /\
    let w2 := bridge_replies (mkHost "android" (constant_native (Fulfilled JNull))) 2
                (length (calls loaded_world))
                (snd (getExperiences (mkHost "android" (constant_native (Fulfilled JNull)))
                        default_export [] false 0%float false false false false
                        loaded_world)) in
    promise_state w2 p = Some (Rejected TypeError) /\
    calls w2 = calls loaded_world ++
                 [Native_getExperiences [] false 0%float false false false false].
Proof.
  split; [discriminate|]. split; [reflexivity|]. split; [reflexivity|].
  split; [reflexivity|]. split; [apply le_n|].
  apply (getExperiences_rejects_unmappable (mkHost "android" (constant_native (Fulfilled JNull)))
           default_export [] false 0%float false false false false loaded_world JNull 2);
    [discriminate | reflexivity | reflexivity | reflexivity | apply le_n].
Defined.

(** ** Decoration of arbitrary elements *)

Section Elements.

Variable host : Host.

Lemma call_shown_decorated e ps w :
  call_shown host (set_prop "shown" (JShown e) ps) w =
  (match NativeModules_QubitSDK host (calls w) (Native_experienceShown e) with
   | Throws x => Throw x
   | Returns _ => Normal JUndefined
   end,
   set_calls (fun cs => cs ++ [Native_experienceShown e]) w).
Proof.
  unfold call_shown. rewrite get_prop_set_prop_eq. cbn.
  unfold invoke_shown, bind, ret. rewrite call_native_void_run.
  now destruct (NativeModules_QubitSDK host (calls w) (Native_experienceShown e)).
Qed.

Lemma forEach_shown_decorated es : forall w,
  (forall cs e, exists o,
     NativeModules_QubitSDK host cs (Native_experienceShown e) = Returns o) ->
  forEach_shown host (map decorate es) w =
  (Normal tt, set_calls (fun cs => cs ++ map Native_experienceShown es) w).
Proof.
  induction es as [|e es IH]; intros w Hnative; cbn [map forEach_shown].
  - unfold ret. f_equal. apply world_eq; cbn; now rewrite ?app_nil_r.
  - unfold bind, decorate, shown_method. rewrite call_shown_decorated.
    destruct (Hnative (calls w) e) as [o ->].
    rewrite IH by exact Hnative.
    f_equal. apply world_eq; cbn; try reflexivity. now rewrite <- app_assoc.
Qed.

End Elements.



(** X8: when the native [experienceShown] does not throw, calling [shown] on
    each element of a decorated sequence, first to last, invokes
    [experienceShown] once per element, in that order, each time with the
    element as the native side sent it, and does nothing else. *)
Theorem forEach_shown_notifies_in_order host es w :
  (forall cs e, exists o,
     NativeModules_QubitSDK host cs (Native_experienceShown e) = Returns o) ->
  forEach_shown host (map decorate es) w =
  (Normal tt, set_calls (fun cs => cs ++ map Native_experienceShown es) w).
Proof.
  intros Hnative. now apply forEach_shown_decorated.
Qed.

Lemma forEach_shown_notifies_in_order_witness :
  (forall cs e, exists o,
     NativeModules_QubitSDK android_host cs (Native_experienceShown e) = Returns o) /\
  forEach_shown android_host (map decorate [JObj sample_record; JObj []]) loaded_world =
  (Normal tt,
   set_calls (fun cs => cs ++ map Native_experienceShown [JObj sample_record; JObj []])
     loaded_world).
Proof.
  assert (H : forall cs e, exists o,
            NativeModules_QubitSDK android_host cs (Native_experienceShown e) = Returns o).
  { intros cs e. exists Pending. reflexivity. }
  split; [exact H|].
  apply (forEach_shown_notifies_in_order android_host [JObj sample_record; JObj []]
           loaded_world H).
Defined.

(** ** The setters together *)

(** X9: on an instance the two setters commute, and of two calls of
    [withTrackingId] (of [withLogLevel]) the later one wins; either way the
    chain returns the instance and changes nothing but its fields. *)
Theorem setters_compose this o trackingId trackingId' logLevel logLevel' w :
  objects w !! this = Some o ->
  (let* self := withLogLevel this logLevel in withTrackingId self trackingId) w =
    (Normal this,
     set_objects (insert this (mkQubitSDK (Some trackingId) (LogLevel_literal logLevel))) w) /\
  (let* self := withTrackingId this trackingId in withLogLevel self logLevel) w =
    (Normal this,
     set_objects (insert this (mkQubitSDK (Some trackingId) (LogLevel_literal logLevel))) w) /\
  (let* self := withTrackingId this trackingId' in withTrackingId self trackingId) w =
    withTrackingId this trackingId w /\
  (let* self := withLogLevel this logLevel' in withLogLevel self logLevel) w =
    withLogLevel this logLevel w.
Proof.
  intros Hthis. unfold withLogLevel, withTrackingId, this_assign, bind, ret.
  rewrite Hthis. cbn -[insert lookup delete]. rewrite !lookup_insert_eq.
  repeat split; f_equal; apply world_eq; cbn -[insert lookup delete];
    rewrite ?insert_insert_eq; reflexivity.
Qed.

Lemma setters_compose_witness :
  objects loaded_world !! default_export = Some (mkQubitSDK None "WARN") /\
  (let* self := withLogLevel default_export DEBUG in withTrackingId self "abc") loaded_world =
    (Normal default_export,
     set_objects (insert default_export (mkQubitSDK (Some "abc") (LogLevel_literal DEBUG)))
       loaded_world) /\
  (let* self := withTrackingId default_export "abc" in withLogLevel self DEBUG) loaded_world =
    (Normal default_export,
     set_objects (insert default_export (mkQubitSDK (Some "abc") (LogLevel_literal DEBUG)))
       loaded_world) /\
  (let* self := withTrackingId default_export "old" in withTrackingId self "abc") loaded_world =
    withTrackingId default_export "abc" loaded_world /\
  (let* self := withLogLevel default_export INFO in withLogLevel self DEBUG) loaded_world =
    withLogLevel default_export DEBUG loaded_world.
Proof.
  split; [reflexivity|].
  apply (setters_compose default_export (mkQubitSDK None "WARN") "abc" "old" DEBUG INFO
           loaded_world).
  reflexivity.
Defined.

(** ** Sequences of calls *)

Section Sequences.

Variable host : Host.

Lemma perform_same_objects a w :
  is_setter a = false -> objects (perform host a w) = objects w.
Proof.
  destruct a; cbn [perform is_setter]; try discriminate; intros _.
  - apply same_objects_start.
  - unfold sendEvent. destruct (is_ios host); [reflexivity|]. apply same_objects_call_native_void.
  - unfold enable. destruct (is_ios host); [reflexivity|]. apply same_objects_call_native_void.
  - unfold getTrackingId. destruct (is_ios host);
      [reflexivity | apply same_objects_call_native_promise].
  - unfold getDeviceId. destruct (is_ios host);
      [reflexivity | apply same_objects_call_native_promise].
  - unfold getLookupData. destruct (is_ios host);
      [reflexivity | apply same_objects_call_native_promise].
  - apply same_objects_getExperiences.
  - apply same_objects_call_value.
  - apply drain_same_objects.
  - apply bridge_replies_same_objects.
Qed.

Lemma perform_forwards a w :
  is_operation a = true ->
  calls (perform host a w) = calls w ++ forwarded host (objects w) a.
Proof.
  destruct a; cbn [perform is_operation forwarded]; try discriminate; intros _.
  - unfold start. destruct (is_ios host).
    + cbn. destruct (objects w !! this); now rewrite app_nil_r.
    + unfold this_field, bind. destruct (objects w !! this) as [o|] eqn:Hthis.
      * cbn [fst snd]. rewrite Hthis. now rewrite call_native_void_run.
      * cbn. now rewrite app_nil_r.
  - unfold sendEvent. destruct (is_ios host); cbn; rewrite ?app_nil_r; [reflexivity|].
    now rewrite call_native_void_run.
  - unfold enable. destruct (is_ios host); cbn; rewrite ?app_nil_r; [reflexivity|].
    now rewrite call_native_void_run.
  - unfold getTrackingId. destruct (is_ios host);
      [cbn; now rewrite app_nil_r | apply call_native_promise_calls].
  - unfold getDeviceId. destruct (is_ios host);
      [cbn; now rewrite app_nil_r | apply call_native_promise_calls].
  - unfold getLookupData. destruct (is_ios host);
      [cbn; now rewrite app_nil_r | apply call_native_promise_calls].
  - apply getExperiences_calls.
  - destruct f; cbn [call_value]; try (cbn; now rewrite app_nil_r).
    unfold invoke_shown, bind. rewrite call_native_void_run.
    now destruct (NativeModules_QubitSDK host (calls w) (Native_experienceShown f)).
Qed.

Lemma operation_is_no_setter a : is_operation a = true -> is_setter a = false.
Proof. now destruct a. Qed.

End Sequences.

(** X10: once the configuration is done, a sequence of calls of the facade
    and of [shown] functions reaches the native module call by call and in
    the order of the calls: one invocation with the arguments of each call,
    [init] with the two fields for each [start], and on iOS none but those of
    [getExperiences] and [shown]. Nothing is dropped, repeated or reordered,
    whatever the native side answers or throws. *)
Theorem operations_forwarded_in_order host acts : forall w,
  forallb is_operation acts = true ->
  calls (run host acts w) = calls w ++ flat_map (forwarded host (objects w)) acts.
Proof.
  induction acts as [|a acts IH]; intros w Hacts; cbn [run fold_left flat_map].
  - now rewrite app_nil_r.
  - cbn [forallb] in Hacts. apply andb_prop in Hacts as [Ha Hacts].
    fold (run host acts (perform host a w)). rewrite IH by exact Hacts.
    rewrite (perform_forwards host a w Ha).
    rewrite (perform_same_objects host a w (operation_is_no_setter a Ha)).
    now rewrite <- app_assoc.
Qed.

Lemma operations_forwarded_in_order_witness :
  forallb is_operation
    [Do_start default_export;
     Do_sendEvent default_export "ecView" (JObj [("type", JStr "home")]);
     Do_start default_export;
     Do_enable default_export false;
     Do_getTrackingId default_export] = true /\
  calls (run android_host
           [Do_start default_export;
            Do_sendEvent default_export "ecView" (JObj [("type", JStr "home")]);
            Do_start default_export;
            Do_enable default_export false;
            Do_getTrackingId default_export] loaded_world) =
    calls loaded_world ++
      flat_map (forwarded android_host (objects loaded_world))
        [Do_start default_export;
         Do_sendEvent default_export "ecView" (JObj [("type", JStr "home")]);
         Do_start default_export;
         Do_enable default_export false;
         Do_getTrackingId default_export].
Proof.
  split; [reflexivity|].
  apply (operations_forwarded_in_order android_host
           [Do_start default_export;
            Do_sendEvent default_export "ecView" (JObj [("type", JStr "home")]);
            Do_start default_export;
            Do_enable default_export false;
            Do_getTrackingId default_export] loaded_world).
  reflexivity.
Defined.

(** X11: the configuration of every instance changes through [withLogLevel]
    and [withTrackingId] only: no other method, no call of [shown], no answer
    of the native side and no reaction touches a field, on any platform. *)
Theorem configuration_changes_through_setters_only host acts : forall w,
  forallb (fun a => negb (is_setter a)) acts = true ->
  objects (run host acts w) = objects w.
Proof.
  induction acts as [|a acts IH]; intros w Hacts; cbn [run fold_left]; [reflexivity|].
  cbn [forallb] in Hacts. apply andb_prop in Hacts as [Ha Hacts].
  apply negb_true_iff in Ha.
  fold (run host acts (perform host a w)). rewrite IH by exact Hacts.
  now apply perform_same_objects.
Qed.

Lemma configuration_changes_through_setters_only_witness :
  forallb (fun a => negb (is_setter a))
    [Do_start default_export;
     Do_getExperiences default_export [] false 0%float false false false false;
     Do_reply 2 1;
     Do_checkpoint 2] = true /\
  objects (run android_host
             [Do_start default_export;
              Do_getExperiences default_export [] false 0%float false false false false;
              Do_reply 2 1;
              Do_checkpoint 2] loaded_world) = objects loaded_world.
Proof.
  split; [reflexivity|].
  apply (configuration_changes_through_setters_only android_host
           [Do_start default_export;
            Do_getExperiences default_export [] false 0%float false false false false;
            Do_reply 2 1;
            Do_checkpoint 2] loaded_world).
  reflexivity.
Defined.

(** ** The further properties at work *)

Example operations_trace :
  calls (run android_host
           [Do_start default_export;
            Do_sendEvent default_export "ecView" (JObj [("type", JStr "home")]);
            Do_start default_export;
            Do_enable default_export false;
            Do_getTrackingId default_export] loaded_world) =
  [Native_init None "WARN";
   Native_sendEvent "ecView" (JObj [("type", JStr "home")]);
   Native_init None "WARN";
   Native_enableTracker false;
   Native_getTrackingId].
Proof. vm_compute. reflexivity. Qed.

Example operations_trace_ios :
  calls (run ios_host
           [Do_start default_export;
            Do_sendEvent default_export "ecView" (JObj [("type", JStr "home")]);
            Do_enable default_export false;
            Do_getTrackingId default_export;
            Do_getExperiences default_export [] false 0%float false false false false]
           loaded_world) =
  [Native_getExperiences [] false 0%float false false false false].
Proof. vm_compute. reflexivity. Qed.

Example null_answer_rejects :
  let host := mkHost "android" (constant_native (Fulfilled JNull)) in
  let w1 := snd (getExperiences host default_export [] false 0%float false false false false
                   loaded_world) in
  promise_state (bridge_replies host 2 0 w1) 1 = Some (Rejected TypeError).
Proof. vm_compute. reflexivity. Qed.

Example empty_answer_resolves_empty :
  let host := mkHost "android" (constant_native (Fulfilled (JArr []))) in
  let w1 := snd (getExperiences host default_export [] false 0%float false false false false
                   loaded_world) in
  promise_state (bridge_replies host 2 0 w1) 1 = Some (Fulfilled (JArr [])).
Proof. vm_compute. reflexivity. Qed.

Example decorate_null : decorate JNull = JObj [("shown", JShown JNull)].
Proof. reflexivity. Qed.
